(** * umsgpack_conn: length-prefixed framing over a socket

    A shallow embedding of [umsgpack_conn.py] (the packer, the receive loop of
    [ConnectionHandler.run] and the [Server] life cycle) together with the
    properties of the framing protocol.

    Conventions of the embedding.
    - The module is Python 2 code ([data = ''] is concatenated with what
      [recv] returns, [setDaemon]): a [str] is a byte string, modelled as
      [list byte].
    - Python integers are unbounded: they are [Z].
    - An exception is a value of [exn]; a call that may raise returns a
      [result].
    - [assert] statements are live (the interpreter runs without [-O]). *)

From Stdlib Require Import ZArith List Bool Lia Arith.
From Stdlib Require Import Strings.Byte.
Import ListNotations.

Local Open Scope Z_scope.

(** ** Byte strings *)

Abbreviation bytes := (list byte) (only parsing).

(** [s.__len__()] *)
Definition len (s : bytes) : Z := Z.of_nat (length s).

(** [s[:n]] and [s[n:]] for an index [n >= 0] (the only ones the module
    computes). *)
Definition slice_to (n : Z) (s : bytes) : bytes := firstn (Z.to_nat n) s.
Definition slice_from (n : Z) (s : bytes) : bytes := skipn (Z.to_nat n) s.

(** Truth value of a byte string: [not s] holds for the empty string only. *)
Definition is_empty (s : bytes) : bool :=
  match s with [] => true | _ :: _ => false end.

Definition Z_of_byte (b : byte) : Z := Z.of_N (Byte.to_N b).

Definition byte_of_Z (z : Z) : byte :=
  match Byte.of_N (Z.to_N (Z.land z 255)) with
  | Some b => b
  | None => x00
  end.

(** ** Exceptions *)

Inductive exn : Type :=
| AssertionError      (* a failed [assert] *)
| StructError         (* [struct.error] *)
| AttributeError      (* attribute lookup on an object that lacks it *)
| SocketError         (* [socket.error] of the transport *)
| OtherError.         (* anything raised by a collaborator *)

Inductive result (A : Type) : Type :=
| Ok (a : A)
| Raise (e : exn).
Arguments Ok {A} a.
Arguments Raise {A} e.

Definition bind {A B} (r : result A) (k : A -> result B) : result B :=
  match r with
  | Ok a => k a
  | Raise e => Raise e
  end.

Notation "x <- r ;; k" := (bind r (fun x => k))
  (at level 61, r at next level, right associativity).

(** ** Module constants *)

Definition BUFFER_SIZE : Z := 1024 * 8.
Definition MAX_INT32 : Z := 2147483647.

(** ** [struct.pack("<I", n)] and [struct.unpack("<I", s)[0]] *)

(** The four low bytes of [n], least significant first. *)
Definition le32 (n : Z) : bytes :=
  [ byte_of_Z n;
    byte_of_Z (Z.shiftr n 8);
    byte_of_Z (Z.shiftr n 16);
    byte_of_Z (Z.shiftr n 24) ].

(** [struct.error] when [n] is not a 32-bit unsigned value. *)
Definition struct_pack_I (n : Z) : result bytes :=
  if (0 <=? n) && (n <? 2 ^ 32) then Ok (le32 n) else Raise StructError.

(** [struct.error] unless [s] has exactly four bytes. *)
Definition struct_unpack_I (s : bytes) : result Z :=
  match s with
  | [b0; b1; b2; b3] =>
      Ok (Z.lor (Z_of_byte b0)
         (Z.lor (Z.shiftl (Z_of_byte b1) 8)
         (Z.lor (Z.shiftl (Z_of_byte b2) 16)
                (Z.shiftl (Z_of_byte b3) 24))))
  | _ => Raise StructError
  end.

(** The number a byte string denotes when read least significant byte first
    (the wire format's meaning of a length prefix). *)
Fixpoint le_value (s : bytes) : Z :=
  match s with
  | [] => 0
  | b :: s' => Z_of_byte b + 256 * le_value s'
  end.

(** ** [UMsgPacker.pack_obj] *)

Section UMsgPacker.

(** The external codec: [umsgpack.packb(obj)]. *)
Variable Obj : Type.
Variable packb : Obj -> result bytes.

Definition pack_obj (obj : Obj) : result bytes :=
  msg <- packb obj ;;
  if len msg <? MAX_INT32 then
    msg_len_in_bytes <- struct_pack_I (len msg) ;;
    Ok (msg_len_in_bytes ++ msg)
  else Raise AssertionError.

End UMsgPacker.

Arguments pack_obj {Obj} packb obj.

(** The frame of a message that is already serialized: [pack_obj] with the
    identity codec. *)
Definition frame (msg : bytes) : result bytes := pack_obj (@Ok bytes) msg.

(** Messages framed back to back into one byte string. *)
Fixpoint frames (msgs : list bytes) : result bytes :=
  match msgs with
  | [] => Ok []
  | msg :: msgs' =>
      f <- frame msg ;;
      rest <- frames msgs' ;;
      Ok (f ++ rest)
  end.

(** ** [ConnectionHandler.run]: the receive loop *)

(** What the loop is doing when it stops being followed. *)
Inductive control : Type :=
| Exit                (* the inner [while] condition became false *)
| Return              (* the [return] of line 281 *)
| Raising (e : exn)   (* an exception propagates out of [run] *)
| NoFuel.             (* still running when the fuel ran out *)

Section ConnectionHandler.

(** The transport behind [self.connection]: [Conn] is the state of the
    socket and of its peer, [recv c bufsize] is one call of
    [self.connection.recv(bufsize)] and [close c] one call of
    [self.connection.close()]. *)
Variable Conn : Type.
Variable recv : Conn -> Z -> result bytes * Conn.
Variable close : Conn -> result unit * Conn.

(** [self._handle_msg(msg)]: [umsgpack.unpackb] followed by the
    application's [_handle_decoded]; either may raise. *)
Variable _handle_msg : bytes -> result unit.

(** The local variables of [run], the socket, and two ghost fields: the
    arguments [_handle_msg] was called with, oldest first, and the number
    of calls of [self.connection.close()]. *)
Record run_state : Type := mk_run_state {
  connection : Conn;
  data : bytes;
  number_of_bytes : Z;
  delivered : list bytes;
  closes : nat
}.

Definition with_connection (c : Conn) (s : run_state) : run_state :=
  mk_run_state c (data s) (number_of_bytes s) (delivered s) (closes s).

Definition with_locals (d : bytes) (n : Z) (s : run_state) : run_state :=
  mk_run_state (connection s) d n (delivered s) (closes s).

(** Lines 264-267 and 288-291: the first four bytes give the size of the
    message, the rest is kept. *)
Definition read_number_of_bytes (s : run_state) : result run_state :=
  n <- struct_unpack_I (slice_to 4 (data s)) ;;
  if 0 <=? n
  then Ok (with_locals (slice_from 4 (data s)) n s)
  else Raise AssertionError.

(** Line 270: [not data or number_of_bytes == 0 or
    data.__len__() < number_of_bytes]. *)
Definition must_receive (s : run_state) : bool :=
  is_empty (data s)
  || (number_of_bytes s =? 0)
  || (len (data s) <? number_of_bytes s).

(** Lines 270-294: the inner [while].  One unit of fuel is one call of
    [recv]. *)
Fixpoint receive (fuel : nat) (s : run_state) : control * run_state :=
  if must_receive s then
    match fuel with
    | O => (NoFuel, s)
    | S fuel' =>
        match recv (connection s) BUFFER_SIZE with
        | (Raise _, c) => (Return, with_connection c s)
        | (Ok rec, c) =>
            let s := with_connection c s in
            let s := with_locals (data s ++ rec) (number_of_bytes s) s in
            if (number_of_bytes s =? 0) && (4 <=? len (data s)) then
              match read_number_of_bytes s with
              | Ok s => receive fuel' s
              | Raise e => (Raising e, s)
              end
            else receive fuel' s
        end
    end
  else (Exit, s).

(** Lines 261-299: the outer [while True].  One unit of fuel is one
    iteration; the inner loop of an iteration gets what is left. *)
Fixpoint loop (fuel : nat) (s : run_state) : control * run_state :=
  match fuel with
  | O => (NoFuel, s)
  | S fuel' =>
      let top :=
        if (number_of_bytes s =? 0) && (4 <=? len (data s))
        then read_number_of_bytes s
        else Ok s in
      match top with
      | Raise e => (Raising e, s)
      | Ok s =>
          match receive fuel' s with
          | (Exit, s) =>
              let msg := slice_to (number_of_bytes s) (data s) in
              let s := with_locals (slice_from (number_of_bytes s) (data s)) 0 s in
              let s := mk_run_state (connection s) (data s) (number_of_bytes s)
                                    (delivered s ++ [msg]) (closes s) in
              match _handle_msg msg with
              | Ok _ => loop fuel' s
              | Raise e => (Raising e, s)
              end
          | stopped => stopped
          end
      end
  end.

(** Lines 301-305: the [finally] clause; what [close] raises is dropped. *)
Definition finally_close (s : run_state) : run_state :=
  let (_, c) := close (connection s) in
  mk_run_state c (data s) (number_of_bytes s) (delivered s) (S (closes s)).

(** Lines 258-259. *)
Definition initial (c : Conn) : run_state := mk_run_state c [] 0 [] 0.

(** [run]: the loop inside [try ... finally].  A run that is out of fuel
    has not reached the [finally] clause. *)
Definition run (fuel : nat) (c : Conn) : control * run_state :=
  match loop fuel (initial c) with
  | (NoFuel, s) => (NoFuel, s)
  | (ctl, s) => (ctl, finally_close s)
  end.

End ConnectionHandler.

Arguments connection {Conn} r.
Arguments data {Conn} r.
Arguments number_of_bytes {Conn} r.
Arguments delivered {Conn} r.
Arguments closes {Conn} r.
Arguments mk_run_state {Conn} _ _ _ _ _.
Arguments read_number_of_bytes {Conn} s.
Arguments must_receive {Conn} s.
Arguments initial {Conn} c.
Arguments with_connection {Conn} c s.
Arguments with_locals {Conn} d n s.
Arguments receive {Conn} recv fuel s.
Arguments loop {Conn} recv _handle_msg fuel s.
Arguments finally_close {Conn} close s.
Arguments run {Conn} recv close _handle_msg fuel c.

(** ** Scripted transports *)

(** How a connection behaves once the bytes in flight have been read:
    [recv] raises (reset, or the socket closed under the blocked call), or
    the peer has shut down in order and every [recv] returns the empty
    string. *)
Inductive ending : Type := EndRaises | EndOfStream.

(** A connection that delivers the chunks of [pending], one per call of
    [recv], and then ends.  A chunk is handed out whole, whatever [bufsize]:
    every way of cutting the stream is a script. *)
Record script : Type := mk_script { pending : list bytes; at_end : ending }.

Definition script_recv (c : script) (bufsize : Z) : result bytes * script :=
  match pending c with
  | rec :: rest => (Ok rec, mk_script rest (at_end c))
  | [] =>
      match at_end c with
      | EndRaises => (Raise SocketError, c)
      | EndOfStream => (Ok [], c)
      end
  end.

Definition script_close (c : script) : result unit * script := (Ok tt, c).

(** A handler that accepts every message. *)
Definition accept_all (msg : bytes) : result unit := Ok tt.

Definition run_script := run script_recv script_close.

(** ** [wait_for_condition] *)

Section Polling.

(** The world as the polling thread sees it: [condition k] is what the
    [k]-th call of [condition()] returns, [clock k] the [k]-th reading of
    [time.time()], in milliseconds.  Both are decided by the other threads
    and by the passing of time, not by this code. *)
Variable condition : nat -> bool.
Variable clock : nat -> Z.

(** Lines 84-88, after [k] polls; a unit of fuel is one [time.sleep(.01)].
    The result carries the number of polls made. *)
Fixpoint polling (fuel k : nat) (initial timeout : Z) : option (bool * nat) :=
  if condition k then Some (true, S k)
  else if clock (S k) - initial >? timeout then Some (false, S k)
  else
    match fuel with
    | O => None
    | S fuel' => polling fuel' (S k) initial timeout
    end.

Definition wait_for_condition (fuel : nat) (timeout : Z) : option (bool * nat) :=
  polling fuel 0 (clock 0) timeout.

End Polling.

(** ** [Server] *)

(** A bound listening socket; [getsockname()[1]] is its port. *)
Record listener : Type := mk_listener { getsockname_port : Z }.

(** The instance attribute [_sock]: not set yet, [None], or a socket. *)
Inductive sock_attr : Type :=
| NoAttr
| AttrNone
| AttrSock (sock : listener).

Record Server : Type := mk_Server {
  _block : option bool;
  _shutdown_event : bool;
  _sock : sock_attr
}.

(** [Server.__init__] *)
Definition new_Server : Server := mk_Server None false NoAttr.

(** [getattr(self, '_sock', None)] *)
Definition getattr_sock (self : Server) : option listener :=
  match _sock self with
  | AttrSock sock => Some sock
  | _ => None
  end.

(** [hasattr(self, '_sock')] *)
Definition hasattr_sock (self : Server) : bool :=
  match _sock self with
  | NoAttr => false
  | _ => true
  end.

(** [self._sock] *)
Definition read_sock (self : Server) : result (option listener) :=
  match _sock self with
  | NoAttr => Raise AttributeError
  | AttrNone => Ok None
  | AttrSock sock => Ok (Some sock)
  end.

(** [Server.is_alive] *)
Definition is_alive (self : Server) : bool :=
  match _block self with
  | None => false
  | Some _ =>
      match getattr_sock self with
      | Some _ => true
      | None => false
      end
  end.

(** [Server.get_port]: [self_at k] is the server object at the [k]-th look
    of the calling thread (the accept thread sets [_sock] in between). *)
Definition get_port (self_at : nat -> Server) (clock : nat -> Z) (fuel : nat)
  : option (result Z) :=
  match wait_for_condition (fun k => hasattr_sock (self_at k)) clock fuel 5000 with
  | None => None
  | Some (_, k) =>
      Some (sock <- read_sock (self_at k) ;;
            match sock with
            | Some sock => Ok (getsockname_port sock)
            | None => Raise AttributeError
            end)
  end.

(** What the server does to the outside. *)
Inductive effect (Connection : Type) : Type :=
| CloseListener (sock : listener)       (* [sock.close()] on the listening socket *)
| PrintTraceback                        (* [traceback.print_exc()] *)
| HandlerStarted (c : Connection).      (* a handler thread runs on [c] *)
Arguments CloseListener {Connection} sock.
Arguments PrintTraceback {Connection}.
Arguments HandlerStarted {Connection} c.

(** How the accept loop stops being followed. *)
Inductive loop_control : Type :=
| LoopDone                 (* the [while] test failed or a [break] was taken *)
| LoopRaising (e : exn)    (* an exception propagates *)
| LoopWaiting.             (* blocked in [select.select] *)

(** One return of [select.select([sock], [], [])] and what follows it:
    whether another thread ran [shutdown()] while this one waited, what
    [select] returned ([fd_sets[0]] non-empty or not) or raised, and what
    [sock.accept()] returns or raises if it is called.  A [shutdown()]
    after which [select] does not return has no round: the list of rounds
    just ends there, and with it what is said about the loop. *)
Record round (Connection : Type) : Type := mk_round {
  interrupted : bool;
  selected : result bool;
  accepted : result Connection
}.
Arguments mk_round {Connection} _ _ _.
Arguments interrupted {Connection} r.
Arguments selected {Connection} r.
Arguments accepted {Connection} r.

Section Server.

Variable Connection : Type.
Variable Handler : Type.

(** [self.connection_handler_class(connection, *self._params)] and
    [connection_handler.start()]. *)
Variable connection_handler_class : Connection -> result Handler.
Variable start : Handler -> result unit.

(** [sock.close()] on a listening socket. *)
Variable sock_close : listener -> result unit.

Definition world : Type := list (effect Connection).

(** [Server.shutdown] *)
Definition shutdown (self : Server) (w : world) : Server * world :=
  let self := mk_Server (_block self) true (_sock self) in
  match getattr_sock self with
  | Some sock =>
      let self := mk_Server (_block self) (_shutdown_event self) AttrNone in
      match sock_close sock with
      | Ok _ => (self, w ++ [CloseListener sock])
      | Raise _ => (self, w ++ [CloseListener sock; PrintTraceback])
      end
  | None => (self, w)
  end.

(** Lines 171-198: the accept loop, one [round] per return of [select]. *)
Fixpoint serve_loop (rounds : list (round Connection)) (self : Server) (w : world)
  : loop_control * Server * world :=
  if _shutdown_event self then (LoopDone, self, w)
  else
    match read_sock self with
    | Raise e => (LoopRaising e, self, w)
    | Ok None => (LoopDone, self, w)
    | Ok (Some _) =>
        match rounds with
        | [] => (LoopWaiting, self, w)
        | r :: rounds' =>
            let (self, w) :=
              if interrupted r then shutdown self w else (self, w) in
            match selected r with
            | Raise e => (LoopRaising e, self, w)
            | Ok ready =>
                if _shutdown_event self then (LoopDone, self, w)
                else
                  match read_sock self with
                  | Raise e => (LoopRaising e, self, w)
                  | Ok None => (LoopDone, self, w)
                  | Ok (Some _) =>
                      if ready then
                        match accepted r with
                        | Raise e => (LoopRaising e, self, w)
                        | Ok connection =>
                            match (connection_handler <-
                                     connection_handler_class connection ;;
                                   start connection_handler) with
                            | Ok _ =>
                                serve_loop rounds' self
                                           (w ++ [HandlerStarted connection])
                            | Raise _ =>
                                serve_loop rounds' self (w ++ [PrintTraceback])
                            end
                        end
                      else serve_loop rounds' self w
                  end
            end
        end
    end.

(** [Server._serve_forever]: [bound] is the outcome of creating, binding
    and listening on the socket (lines 160-166). *)
Definition _serve_forever (bound : result listener)
           (rounds : list (round Connection)) (self : Server) (w : world)
  : loop_control * Server * world :=
  match bound with
  | Raise e => (LoopRaising e, self, w)
  | Ok sock =>
      let self := mk_Server (_block self) (_shutdown_event self) (AttrSock sock) in
      match serve_loop rounds self w with
      | (LoopWaiting, self, w) => (LoopWaiting, self, w)
      | (ctl, self, w) =>
          let (self, w) := shutdown self w in (ctl, self, w)
      end
  end.

End Server.

Arguments shutdown {Connection} sock_close self w.
Arguments serve_loop {Connection Handler} connection_handler_class start sock_close rounds self w.
Arguments _serve_forever {Connection Handler} connection_handler_class start sock_close bound rounds self w.

(** ** [assert_waited_condition] *)

Section Asserting.

Variable condition : nat -> bool.
Variable clock : nat -> Z.

(** Lines 98-101, after [k] polls; a unit of fuel is one [time.sleep(.01)]. *)
Fixpoint asserting (fuel k : nat) (initial timeout : Z) : option (result unit) :=
  if condition k then Some (Ok tt)
  else if clock (S k) - initial >? timeout then Some (Raise AssertionError)
  else
    match fuel with
    | O => None
    | S fuel' => asserting fuel' (S k) initial timeout
    end.

Definition assert_waited_condition (fuel : nat) (timeout : Z)
  : option (result unit) :=
  asserting fuel 0 (clock 0) timeout.

End Asserting.

(** ** [Server.serve_forever] *)

(** What a call of [serve_forever] leaves behind: how the call ended (for a
    blocking call, how [_serve_forever] did), the server, the effects, and
    whether a daemon thread was started on [_serve_forever]. *)
Record started (Connection : Type) : Type := mk_started {
  outcome : loop_control;
  server : Server;
  effects : list (effect Connection);
  thread_started : bool
}.
Arguments mk_started {Connection} _ _ _ _.
Arguments outcome {Connection} s.
Arguments server {Connection} s.
Arguments effects {Connection} s.
Arguments thread_started {Connection} s.

Section ServeForever.

Variable Connection : Type.
Variable Handler : Type.
Variable connection_handler_class : Connection -> result Handler.
Variable start : Handler -> result unit.
Variable sock_close : listener -> result unit.

(** Lines 115-125.  With [block] the accept loop runs in the caller and
    [_block] is assigned once it has returned; without, a thread is started
    on it and [_block] is assigned at once.  [bound] and [rounds] are what
    [_serve_forever] meets. *)
Definition serve_forever (block : bool) (bound : result listener)
           (rounds : list (round Connection)) (self : Server)
           (w : list (effect Connection)) : started Connection :=
  match _block self with
  | Some _ => mk_started (LoopRaising AssertionError) self w false
  | None =>
      if block then
        match _serve_forever connection_handler_class start sock_close
                             bound rounds self w with
        | (LoopDone, self, w) =>
            mk_started LoopDone
                       (mk_Server (Some block) (_shutdown_event self) (_sock self))
                       w false
        | (ctl, self, w) => mk_started ctl self w false
        end
      else
        mk_started LoopDone
                   (mk_Server (Some block) (_shutdown_event self) (_sock self))
                   w true
  end.

End ServeForever.

Arguments serve_forever {Connection Handler} connection_handler_class start sock_close block bound rounds self w.

(** ** [Client.send] and [ConnectionHandler._handle_msg] *)

Section Codec.

(** The external codec, [umsgpack.packb] and [umsgpack.unpackb], and the
    socket of the client: [sendall sock data] is one call of
    [self._sock.sendall(data)]. *)
Variable Obj : Type.
Variable packb : Obj -> result bytes.
Variable unpackb : bytes -> result Obj.
Variable Sock : Type.
Variable sendall : Sock -> bytes -> result unit * Sock.

(** Lines 240-241. *)
Definition send (sock : Sock) (obj : Obj) : result unit * Sock :=
  match pack_obj packb obj with
  | Ok data => sendall sock data
  | Raise e => (Raise e, sock)
  end.

(** The application's [_handle_decoded]. *)
Variable _handle_decoded : Obj -> result unit.

(** Lines 307-311. *)
Definition _handle_msg (msg_as_bytes : bytes) : result unit :=
  decoded <- unpackb msg_as_bytes ;;
  _handle_decoded decoded.

End Codec.

Arguments send {Obj} packb {Sock} sendall sock obj.
Arguments _handle_msg {Obj} unpackb _handle_decoded msg_as_bytes.

(** A socket that keeps what was sent: its state is the bytes written so
    far. *)
Definition pipe_sendall (out : bytes) (data : bytes) : result unit * bytes :=
  (Ok tt, out ++ data).

(** A client calling [send] on each object in turn, until one call
    raises. *)
Fixpoint send_each {Obj Sock : Type} (packb : Obj -> result bytes)
         (sendall : Sock -> bytes -> result unit * Sock)
         (sock : Sock) (objs : list Obj) : result unit * Sock :=
  match objs with
  | [] => (Ok tt, sock)
  | obj :: objs' =>
      match send packb sendall sock obj with
      | (Ok _, sock') => send_each packb sendall sock' objs'
      | (Raise e, sock') => (Raise e, sock')
      end
  end.

(** The listening sockets closed, and the connections given a running
    handler, in an effect log. *)
Fixpoint closed_listeners {Connection : Type} (w : list (effect Connection))
  : list listener :=
  match w with
  | [] => []
  | CloseListener sock :: w' => sock :: closed_listeners w'
  | _ :: w' => closed_listeners w'
  end.

(** What the accept loop does about one accepted connection. *)
Definition attempt {Connection Handler : Type}
           (connection_handler_class : Connection -> result Handler)
           (start : Handler -> result unit) (connection : Connection)
  : effect Connection :=
  match (connection_handler <- connection_handler_class connection ;;
         start connection_handler) with
  | Ok _ => HandlerStarted connection
  | Raise _ => PrintTraceback
  end.

(** What the codec and the application are assumed to do with an object:
    [packb] gives at least one byte, [unpackb] gives the object back, and
    the application's [_handle_decoded] returns. *)
Definition round_trips {Obj : Type} (packb : Obj -> result bytes)
           (unpackb : bytes -> result Obj)
           (_handle_decoded : Obj -> result unit) (obj : Obj) : Prop :=
  exists msg,
    packb obj = Ok msg /\ 1 <= len msg
    /\ unpackb msg = Ok obj /\ _handle_decoded obj = Ok tt.


(** ** Auxiliary notions for the proofs *)

(** The bytes of one frame on the wire, and of a sequence of frames. *)
Definition encoded (msg : bytes) : bytes := le32 (len msg) ++ msg.

Definition wire (msgs : list bytes) : bytes := concat (map encoded msgs).

(** The bytes of the current frame that the loop has read so far: once the
    prefix is decoded it lives in [number_of_bytes]. *)
Definition consumed_so_far (d : bytes) (n : Z) : bytes :=
  if n =? 0 then d else le32 n ++ d.

(** What the loop knows of the frame being read: either no prefix yet, and
    fewer than four bytes in the buffer, or the prefix of [msg]. *)
Definition reading (msg d : bytes) (n : Z) : Prop :=
  (n = 0 /\ len d < 4) \/ n = len msg.

(** A server whose accept loop runs: bound, not shut down. *)
Definition running (b : option bool) (sock : listener) : Server :=
  mk_Server b false (AttrSock sock).

(** How a run over a script stops once every frame is handled. *)
Definition end_control (e : ending) : control :=
  match e with
  | EndRaises => Return
  | EndOfStream => NoFuel
  end.

(** * Properties *)

(** ** Bytes and the length prefix *)

Lemma Z_of_byte_range (b : byte) : 0 <= Z_of_byte b < 256.
Proof.
  unfold Z_of_byte. pose proof (Byte.to_N_bounded b). lia.
Qed.

Lemma Z_of_byte_of_Z (z : Z) : Z_of_byte (byte_of_Z z) = z mod 256.
Proof.
  unfold Z_of_byte, byte_of_Z.
  change 255 with (Z.ones 8). rewrite Z.land_ones by lia.
  change (2 ^ 8) with 256.
  pose proof (Z.mod_pos_bound z 256 ltac:(lia)) as Hm.
  destruct (Byte.of_N (Z.to_N (z mod 256))) as [b|] eqn:E.
  - apply Byte.to_of_N in E. rewrite E. lia.
  - apply Byte.of_N_None_iff in E. lia.
Qed.

Lemma land_shiftl_low (a b k : Z) :
  0 <= k -> 0 <= a < 2 ^ k -> Z.land a (Z.shiftl b k) = 0.
Proof.
  intros Hk Ha.
  apply Z.bits_inj'. intros i Hi.
  rewrite Z.land_spec, Z.bits_0.
  destruct (Z.ltb_spec i k).
  - rewrite Z.shiftl_spec_low by lia. apply andb_false_r.
  - destruct (Z.eqb_spec a 0) as [->|Hne].
    + rewrite Z.bits_0. reflexivity.
    + rewrite (Z.bits_above_log2 a i); [reflexivity | lia |].
      apply Z.log2_lt_pow2; try lia.
      apply Z.lt_le_trans with (2 ^ k); try lia.
      apply Z.pow_le_mono_r; lia.
Qed.

Lemma lor_shiftl_low (a b k : Z) :
  0 <= k -> 0 <= a < 2 ^ k -> Z.lor a (Z.shiftl b k) = a + b * 2 ^ k.
Proof.
  intros Hk Ha.
  rewrite <- Z.shiftl_mul_pow2 by lia.
  rewrite <- Z.lxor_lor by now apply land_shiftl_low.
  symmetry. apply Z.add_nocarry_lxor. now apply land_shiftl_low.
Qed.

Lemma struct_unpack_I_le_value (b0 b1 b2 b3 : byte) :
  struct_unpack_I [b0; b1; b2; b3] = Ok (le_value [b0; b1; b2; b3]).
Proof.
  unfold struct_unpack_I, le_value. f_equal.
  pose proof (Z_of_byte_range b0). pose proof (Z_of_byte_range b1).
  pose proof (Z_of_byte_range b2). pose proof (Z_of_byte_range b3).
  replace (Z.shiftl (Z_of_byte b3) 24)
    with (Z.shiftl (Z.shiftl (Z_of_byte b3) 8) 16)
    by (rewrite Z.shiftl_shiftl by lia; reflexivity).
  rewrite <- Z.shiftl_lor.
  replace (Z.shiftl (Z.lor (Z_of_byte b2) (Z.shiftl (Z_of_byte b3) 8)) 16)
    with (Z.shiftl (Z.shiftl (Z.lor (Z_of_byte b2) (Z.shiftl (Z_of_byte b3) 8)) 8) 8)
    by (rewrite Z.shiftl_shiftl by lia; reflexivity).
  rewrite <- Z.shiftl_lor.
  rewrite (lor_shiftl_low (Z_of_byte b2)) by (change (2 ^ 8) with 256; lia).
  rewrite (lor_shiftl_low (Z_of_byte b1)) by (change (2 ^ 8) with 256; lia).
  rewrite (lor_shiftl_low (Z_of_byte b0)) by (change (2 ^ 8) with 256; lia).
  change (2 ^ 8) with 256. lia.
Qed.

Lemma le_value_range_4 (b0 b1 b2 b3 : byte) :
  0 <= le_value [b0; b1; b2; b3] < 2 ^ 32.
Proof.
  unfold le_value.
  pose proof (Z_of_byte_range b0). pose proof (Z_of_byte_range b1).
  pose proof (Z_of_byte_range b2). pose proof (Z_of_byte_range b3).
  change (2 ^ 32) with 4294967296. lia.
Qed.

Lemma le_value_le32 (n : Z) : 0 <= n < 2 ^ 32 -> le_value (le32 n) = n.
Proof.
  intros Hn. unfold le32, le_value.
  rewrite !Z_of_byte_of_Z, !Z.shiftr_div_pow2 by lia.
  change (2 ^ 8) with 256. change (2 ^ 16) with 65536.
  change (2 ^ 24) with 16777216. change (2 ^ 32) with 4294967296 in Hn.
  Z.div_mod_to_equations. lia.
Qed.

(** Packing then unpacking a 32-bit unsigned value gives it back. *)
Lemma struct_unpack_I_le32 (n : Z) :
  0 <= n < 2 ^ 32 -> struct_unpack_I (le32 n) = Ok n.
Proof.
  intros Hn. unfold le32 at 1.
  rewrite struct_unpack_I_le_value.
  fold (le32 n). now rewrite le_value_le32.
Qed.

(** ** Slices *)

Lemma len_nonneg (s : bytes) : 0 <= len s.
Proof. unfold len. lia. Qed.

Lemma len_app (s t : bytes) : len (s ++ t) = len s + len t.
Proof. unfold len. rewrite length_app. lia. Qed.

Lemma is_empty_true_iff (s : bytes) : is_empty s = true <-> s = [].
Proof. destruct s; simpl; split; intros; easy. Qed.

Lemma len_le32 (n : Z) : len (le32 n) = 4.
Proof. reflexivity. Qed.

Lemma slice_app (n : Z) (s : bytes) : slice_to n s ++ slice_from n s = s.
Proof. apply firstn_skipn. Qed.

(** A string that starts the same stream as [p ++ t] and is at least as long
    as [p] starts with [p]. *)
Lemma slice_to_prefix (p s t u : bytes) :
  s ++ t = p ++ u -> len p <= len s -> slice_to (len p) s = p.
Proof.
  unfold slice_to, len. rewrite Nat2Z.id. intros E L.
  assert (H : firstn (length p) (s ++ t) = firstn (length p) (p ++ u))
    by now rewrite E.
  rewrite firstn_app in H.
  replace (length p - length s)%nat with 0%nat in H by lia.
  rewrite firstn_O, app_nil_r in H. rewrite H.
  rewrite firstn_app, Nat.sub_diag, firstn_O, app_nil_r.
  apply firstn_all.
Qed.

Lemma slice_from_prefix (p s t u : bytes) :
  s ++ t = p ++ u -> len p <= len s -> slice_from (len p) s ++ t = u.
Proof.
  intros E L.
  pose proof (slice_to_prefix p s t u E L) as Hp.
  rewrite <- (slice_app (len p) s), Hp, <- app_assoc in E.
  now apply app_inv_head in E.
Qed.

Lemma slice_to_4_length (s : bytes) :
  4 <= len s -> exists b0 b1 b2 b3, slice_to 4 s = [b0; b1; b2; b3].
Proof.
  unfold len, slice_to. change (Z.to_nat 4) with 4%nat.
  destruct s as [|b0 [|b1 [|b2 [|b3 s]]]]; simpl; try lia.
  intros _. now exists b0, b1, b2, b3.
Qed.

(** ** Reading the length prefix (lines 264-267 and 288-291) *)

Lemma read_number_of_bytes_ok {Conn} (s : run_state Conn) :
  4 <= len (data s) ->
  exists n,
    read_number_of_bytes s
    = Ok (mk_run_state (connection s) (slice_from 4 (data s)) n
                       (delivered s) (closes s))
    /\ n = le_value (slice_to 4 (data s))
    /\ 0 <= n < 2 ^ 32.
Proof.
  intros L. destruct (slice_to_4_length _ L) as (b0 & b1 & b2 & b3 & E).
  exists (le_value [b0; b1; b2; b3]).
  pose proof (le_value_range_4 b0 b1 b2 b3) as R.
  unfold read_number_of_bytes. rewrite E, struct_unpack_I_le_value.
  unfold bind.
  destruct (Z.leb_spec 0 (le_value [b0; b1; b2; b3])); [|lia].
  split; [reflexivity | split; [reflexivity | exact R]].
Qed.

(** With the bytes of a frame at the head of the buffer, the prefix read is
    the length of its message. *)
Lemma read_number_of_bytes_encoded {Conn} (s : run_state Conn) (msg t u : bytes) :
  len msg < 2 ^ 32 ->
  data s ++ t = encoded msg ++ u ->
  4 <= len (data s) ->
  read_number_of_bytes s
  = Ok (mk_run_state (connection s) (slice_from 4 (data s)) (len msg)
                     (delivered s) (closes s))
  /\ le32 (len msg) ++ slice_from 4 (data s) = data s.
Proof.
  intros Hm E L.
  unfold encoded in E. rewrite <- app_assoc in E.
  assert (P : slice_to 4 (data s) = le32 (len msg)).
  { change 4 with (len (le32 (len msg))).
    eapply slice_to_prefix; [exact E | rewrite len_le32; lia]. }
  destruct (read_number_of_bytes_ok s L) as (n & R & Hn & _).
  rewrite P, le_value_le32 in Hn by (pose proof (len_nonneg msg); lia).
  subst n. split; [exact R|].
  rewrite <- P. apply slice_app.
Qed.

(** ** The inner loop over a scripted transport *)

Lemma receive_unfold {Conn} (recv : Conn -> Z -> result bytes * Conn)
      (fuel : nat) (s : run_state Conn) :
  receive recv fuel s
  = if must_receive s then
      match fuel with
      | O => (NoFuel, s)
      | S fuel' =>
          match recv (connection s) BUFFER_SIZE with
          | (Raise _, c) => (Return, with_connection c s)
          | (Ok rec, c) =>
              let s := with_connection c s in
              let s := with_locals (data s ++ rec) (number_of_bytes s) s in
              if (number_of_bytes s =? 0) && (4 <=? len (data s)) then
                match read_number_of_bytes s with
                | Ok s => receive recv fuel' s
                | Raise e => (Raising e, s)
                end
              else receive recv fuel' s
          end
      end
    else (Exit, s).
Proof. destruct fuel; reflexivity. Qed.

Lemma consumed_so_far_0 (d : bytes) : consumed_so_far d 0 = d.
Proof. reflexivity. Qed.

Lemma consumed_so_far_pos (d : bytes) (n : Z) :
  n <> 0 -> consumed_so_far d n = le32 n ++ d.
Proof.
  intros H. unfold consumed_so_far.
  now destruct (Z.eqb_spec n 0).
Qed.

Lemma must_receive_false {Conn} (s : run_state Conn) :
  must_receive s = false ->
  number_of_bytes s <> 0 /\ number_of_bytes s <= len (data s).
Proof.
  unfold must_receive. intros M.
  apply orb_false_iff in M. destruct M as [M Hlt].
  apply orb_false_iff in M. destruct M as [_ Hn0].
  apply Z.eqb_neq in Hn0. apply Z.ltb_ge in Hlt. now split.
Qed.

Lemma must_receive_true {Conn} (s : run_state Conn) :
  must_receive s = true ->
  number_of_bytes s = 0 \/ len (data s) < Z.max 1 (number_of_bytes s).
Proof.
  unfold must_receive. intros M.
  apply orb_true_iff in M. destruct M as [M | M].
  - apply orb_true_iff in M. destruct M as [M | M].
    + apply is_empty_true_iff in M. rewrite M. right.
      change (len []) with 0. lia.
    + apply Z.eqb_eq in M. now left.
  - apply Z.ltb_lt in M. right. lia.
Qed.

(** When the inner loop condition fails, the whole message is in the
    buffer. *)
Lemma frame_complete {Conn} (s : run_state Conn) (msg t rest : bytes) :
  1 <= len msg ->
  reading msg (data s) (number_of_bytes s) ->
  consumed_so_far (data s) (number_of_bytes s) ++ t = encoded msg ++ rest ->
  must_receive s = false ->
  number_of_bytes s = len msg
  /\ data s ++ t = msg ++ rest
  /\ len msg <= len (data s).
Proof.
  intros Hmsg Inv Eq M. apply must_receive_false in M. destruct M as [Hn0 Hle].
  destruct Inv as [[E _] | E]; [congruence|].
  rewrite consumed_so_far_pos, E in Eq by assumption.
  unfold encoded in Eq. rewrite <- !app_assoc in Eq.
  apply app_inv_head in Eq. split; [assumption|]. split; [assumption|lia].
Qed.

(** When it holds, bytes of the frame are still to come. *)
Lemma frame_incomplete {Conn} (s : run_state Conn) (msg rest : bytes) :
  1 <= len msg ->
  reading msg (data s) (number_of_bytes s) ->
  consumed_so_far (data s) (number_of_bytes s) = encoded msg ++ rest ->
  must_receive s = false.
Proof.
  intros Hmsg Inv Eq.
  destruct (must_receive s) eqn:M; [exfalso|reflexivity].
  assert (L : len (consumed_so_far (data s) (number_of_bytes s))
              = 4 + len msg + len rest).
  { rewrite Eq. unfold encoded. now rewrite !len_app, len_le32. }
  pose proof (len_nonneg rest). apply must_receive_true in M.
  destruct Inv as [[E Hd] | E]; rewrite E in *.
  - rewrite consumed_so_far_0 in L. lia.
  - rewrite consumed_so_far_pos, len_app, len_le32 in L by lia. lia.
Qed.

(** While a frame is incomplete the inner loop keeps receiving; it exits
    with the whole message at the head of the buffer, whatever the chunks. *)
Lemma receive_frame (e : ending) (msg rest : bytes) (del : list bytes) (k : nat) :
  1 <= len msg < 2 ^ 32 ->
  forall (cs : list bytes) (fuel : nat) (d : bytes) (n : Z),
    reading msg d n ->
    consumed_so_far d n ++ concat cs = encoded msg ++ rest ->
    (length cs <= fuel)%nat ->
    exists cs' d',
      receive script_recv fuel (mk_run_state (mk_script cs e) d n del k)
      = (Exit, mk_run_state (mk_script cs' e) d' (len msg) del k)
      /\ d' ++ concat cs' = msg ++ rest
      /\ len msg <= len d'
      /\ (length cs' <= length cs)%nat.
Proof.
  intros Hmsg cs.
  induction cs as [|c cs IH]; intros fuel d n Inv Eq Hfuel;
    rewrite receive_unfold;
    match goal with
    | |- context [must_receive ?s] =>
        destruct (must_receive s) eqn:Must;
        [| destruct (frame_complete s msg _ rest ltac:(lia) Inv Eq Must)
             as (E & Eq' & L);
           cbn [data number_of_bytes] in E, Eq', L; subst n;
           eexists _, d; repeat split; auto ]
    end.
  - (* no chunk left: the frame must be complete *)
    cbn [concat] in Eq. rewrite app_nil_r in Eq.
    rewrite (frame_incomplete (mk_run_state (mk_script [] e) d n del k)
                              msg rest) in Must; auto; [discriminate|lia].
  - destruct fuel as [|fuel]; [cbn in Hfuel; lia|].
    unfold with_locals, with_connection, script_recv.
    cbn [connection pending at_end data number_of_bytes delivered closes].
    cbn [length] in Hfuel. cbn [concat] in Eq.
    destruct ((n =? 0) && (4 <=? len (d ++ c))) eqn:Parse.
    + (* the chunk completes the prefix *)
      apply andb_true_iff in Parse. destruct Parse as [Hn0 Hlen].
      apply Z.eqb_eq in Hn0. apply Z.leb_le in Hlen. subst n.
      rewrite consumed_so_far_0, app_assoc in Eq.
      destruct (read_number_of_bytes_encoded
                  (mk_run_state (mk_script cs e) (d ++ c) 0 del k)
                  msg (concat cs) rest) as [R Hd]; cbn [data]; try lia; auto.
      cbn [connection data delivered closes] in R, Hd. rewrite R.
      destruct (IH fuel (slice_from 4 (d ++ c)) (len msg))
        as (cs' & d' & Rcv & Eq' & L & Lcs).
      * now right.
      * rewrite consumed_so_far_pos by lia. rewrite Hd. exact Eq.
      * lia.
      * exists cs', d'. cbn [length]. repeat split; auto.
    + (* the chunk only makes the buffer longer *)
      destruct (IH fuel (d ++ c) n) as (cs' & d' & Rcv & Eq' & L & Lcs).
      * destruct Inv as [[-> Hd] | ->]; [left | now right].
        split; [reflexivity|].
        cbn [andb Z.eqb] in Parse. apply Z.leb_gt in Parse. exact Parse.
      * destruct Inv as [[-> Hd] | ->].
        -- rewrite consumed_so_far_0 in *. now rewrite <- app_assoc.
        -- rewrite consumed_so_far_pos in * by lia.
           now rewrite <- !app_assoc in *.
      * lia.
      * exists cs', d'. cbn [length]. repeat split; auto.
Qed.

(** Between two frames, with an empty buffer: if the peer only closes, the
    inner loop returns when [recv] raises and spins when [recv] keeps
    returning the empty string. *)
Lemma receive_idle_raises (del : list bytes) (k fuel : nat) :
  receive script_recv (S fuel)
          (mk_run_state (mk_script [] EndRaises) [] 0 del k)
  = (Return, mk_run_state (mk_script [] EndRaises) [] 0 del k).
Proof. reflexivity. Qed.

Lemma receive_idle_end_of_stream (del : list bytes) (k fuel : nat) :
  receive script_recv fuel
          (mk_run_state (mk_script [] EndOfStream) [] 0 del k)
  = (NoFuel, mk_run_state (mk_script [] EndOfStream) [] 0 del k).
Proof.
  induction fuel as [|fuel IH]; [reflexivity|].
  rewrite receive_unfold. cbn -[receive]. exact IH.
Qed.

Lemma receive_idle (e : ending) (del : list bytes) (k : nat) :
  forall (cs : list bytes) (fuel : nat),
    concat cs = [] ->
    (length cs < fuel)%nat ->
    receive script_recv fuel (mk_run_state (mk_script cs e) [] 0 del k)
    = (end_control e, mk_run_state (mk_script [] e) [] 0 del k).
Proof.
  induction cs as [|c cs IH]; intros fuel Hcs Hfuel.
  - destruct e.
    + destruct fuel; [lia|]. apply receive_idle_raises.
    + apply receive_idle_end_of_stream.
  - cbn [concat] in Hcs. apply app_eq_nil in Hcs. destruct Hcs as [-> Hcs].
    destruct fuel as [|fuel]; [lia|]. cbn [length] in Hfuel.
    rewrite receive_unfold. cbn -[receive].
    apply IH; [assumption | lia].
Qed.

(** ** The outer loop over a scripted transport *)

Lemma loop_unfold {Conn} (recv : Conn -> Z -> result bytes * Conn)
      (h : bytes -> result unit) (fuel : nat) (s : run_state Conn) :
  loop recv h (S fuel) s
  = match (if (number_of_bytes s =? 0) && (4 <=? len (data s))
           then read_number_of_bytes s else Ok s) with
    | Raise e => (Raising e, s)
    | Ok s =>
        match receive recv fuel s with
        | (Exit, s) =>
            let msg := slice_to (number_of_bytes s) (data s) in
            match h msg with
            | Ok _ =>
                loop recv h fuel
                     (mk_run_state (connection s)
                                   (slice_from (number_of_bytes s) (data s)) 0
                                   (delivered s ++ [msg]) (closes s))
            | Raise e =>
                (Raising e,
                 mk_run_state (connection s)
                              (slice_from (number_of_bytes s) (data s)) 0
                              (delivered s ++ [msg]) (closes s))
            end
        | stopped => stopped
        end
    end.
Proof. reflexivity. Qed.

(** The test of line 263 on a buffer that is spelled out. *)
Ltac top_check :=
  unfold initial;
  cbn [number_of_bytes data len length Z.of_nat Z.eqb Z.leb Z.compare andb].

(** One iteration of the outer loop on a buffer and chunks that begin with
    a whole frame: the handler is called with its message, and what follows
    the frame is kept for the next iteration. *)
Lemma loop_frame (h : bytes -> result unit) (e : ending) (msg rest : bytes)
      (del : list bytes) (k : nat) (cs : list bytes) (fuel : nat) (d : bytes) :
  1 <= len msg < 2 ^ 32 ->
  d ++ concat cs = encoded msg ++ rest ->
  (length cs <= fuel)%nat ->
  exists cs' d',
    d' ++ concat cs' = rest
    /\ (length cs' <= length cs)%nat
    /\ loop script_recv h (S fuel) (mk_run_state (mk_script cs e) d 0 del k)
       = match h msg with
         | Ok _ =>
             loop script_recv h fuel
                  (mk_run_state (mk_script cs' e) d' 0 (del ++ [msg]) k)
         | Raise x =>
             (Raising x, mk_run_state (mk_script cs' e) d' 0 (del ++ [msg]) k)
         end.
Proof.
  intros Hmsg Eq Hfuel.
  assert (Rcv : exists d1 n1,
             (if (0 =? 0) && (4 <=? len d)
              then read_number_of_bytes (mk_run_state (mk_script cs e) d 0 del k)
              else Ok (mk_run_state (mk_script cs e) d 0 del k))
             = Ok (mk_run_state (mk_script cs e) d1 n1 del k)
             /\ ((n1 = 0 /\ len d1 < 4) \/ n1 = len msg)
             /\ consumed_so_far d1 n1 = d).
  { destruct (Z.leb_spec 4 (len d)) as [L|L]; cbn [Z.eqb andb].
    - destruct (read_number_of_bytes_encoded
                  (mk_run_state (mk_script cs e) d 0 del k)
                  msg (concat cs) rest) as [R Hd]; cbn [data]; try lia; auto.
      cbn [connection data delivered closes] in R, Hd.
      exists (slice_from 4 d), (len msg). split; [exact R|].
      split; [now right|]. now rewrite consumed_so_far_pos by lia.
    - exists d, 0. split; [reflexivity|]. split; [now left | reflexivity]. }
  destruct Rcv as (d1 & n1 & Top & Inv & Hd1).
  destruct (receive_frame e msg rest del k Hmsg cs fuel d1 n1 Inv)
    as (cs' & d' & R & Eq' & L & Lcs); [now rewrite Hd1 | assumption |].
  exists cs', (slice_from (len msg) d').
  split; [now apply (slice_from_prefix msg d' (concat cs') rest)|].
  split; [assumption|].
  rewrite loop_unfold. cbn [number_of_bytes data].
  rewrite Top, R. cbn [number_of_bytes data connection delivered closes].
  rewrite (slice_to_prefix msg d' (concat cs') rest Eq' L).
  reflexivity.
Qed.

(** Every frame on the wire reaches the handler, in order, whatever the
    chunks; then the loop ends the way the transport does. *)
Lemma loop_wire (h : bytes -> result unit) (e : ending) :
  forall (msgs : list bytes) (fuel : nat) (cs : list bytes) (d : bytes)
         (del : list bytes) (k : nat),
    Forall (fun msg => 1 <= len msg < 2 ^ 32) msgs ->
    Forall (fun msg => h msg = Ok tt) msgs ->
    d ++ concat cs = wire msgs ->
    (length msgs + length cs + 1 < fuel)%nat ->
    loop script_recv h fuel (mk_run_state (mk_script cs e) d 0 del k)
    = (end_control e, mk_run_state (mk_script [] e) [] 0 (del ++ msgs) k).
Proof.
  induction msgs as [|msg msgs IH]; intros fuel cs d del k Hlen Hh Eq Hfuel;
    (destruct fuel as [|fuel]; [lia|]).
  - cbn [wire map concat] in Eq. apply app_eq_nil in Eq. destruct Eq as [-> Hcs].
    rewrite loop_unfold. top_check.
    rewrite receive_idle by (auto; cbn [length] in Hfuel; lia).
    rewrite app_nil_r. now destruct e.
  - inversion Hlen as [|? ? Hm Hlen']; subst.
    inversion Hh as [|? ? Hhm Hh']; subst.
    cbn [length] in Hfuel.
    destruct (loop_frame h e msg (wire msgs) del k cs fuel d Hm Eq)
      as (cs' & d' & Eq' & Lcs & Step); [lia|].
    rewrite Step, Hhm.
    rewrite IH by (auto; lia).
    now rewrite <- app_assoc.
Qed.

(** ** [pack_obj] *)

Lemma MAX_INT32_value : MAX_INT32 = 2 ^ 31 - 1.
Proof. reflexivity. Qed.

Lemma pack_obj_eq {Obj} (packb : Obj -> result bytes) (obj : Obj) (msg : bytes) :
  packb obj = Ok msg ->
  pack_obj packb obj
  = if len msg <? MAX_INT32 then Ok (encoded msg) else Raise AssertionError.
Proof.
  intros E. unfold pack_obj. rewrite E. unfold bind.
  destruct (Z.ltb_spec (len msg) MAX_INT32) as [L|L]; [|reflexivity].
  unfold struct_pack_I.
  pose proof (len_nonneg msg). rewrite MAX_INT32_value in L.
  destruct (Z.leb_spec 0 (len msg)); [|lia].
  destruct (Z.ltb_spec (len msg) (2 ^ 32)); [reflexivity|lia].
Qed.

Lemma frame_inv (msg w : bytes) :
  frame msg = Ok w -> len msg < 2 ^ 31 - 1 /\ w = encoded msg.
Proof.
  unfold frame. rewrite (pack_obj_eq _ msg msg eq_refl).
  rewrite MAX_INT32_value.
  destruct (Z.ltb_spec (len msg) (2 ^ 31 - 1)); intros E; inversion E.
  now split.
Qed.

Lemma frames_inv (msgs : list bytes) :
  forall w, frames msgs = Ok w ->
            Forall (fun msg => len msg < 2 ^ 31 - 1) msgs /\ w = wire msgs.
Proof.
  induction msgs as [|msg msgs IH]; intros w E; cbn [frames] in E.
  - inversion E. now split.
  - destruct (frame msg) as [f|] eqn:F; cbn [bind] in E; [|discriminate].
    destruct (frames msgs) as [r|] eqn:R; cbn [bind] in E; [|discriminate].
    inversion E; subst w.
    apply frame_inv in F. destruct F as [L ->].
    destruct (IH r eq_refl) as [Hall ->].
    split; [now constructor | reflexivity].
Qed.

(** C6. [pack_obj] raises the assertion error exactly when the serialized
    message has [2^31 - 1] bytes or more, and then returns no bytes;
    otherwise it returns a four-byte prefix, whose little-endian value is
    the length of the message, followed by the message. *)
Theorem pack_obj_too_big_iff {Obj} (packb : Obj -> result bytes)
        (obj : Obj) (msg : bytes) :
  packb obj = Ok msg ->
  (pack_obj packb obj = Raise AssertionError <-> 2 ^ 31 - 1 <= len msg)
  /\ (len msg < 2 ^ 31 - 1 ->
      exists prefix,
        pack_obj packb obj = Ok (prefix ++ msg)
        /\ length prefix = 4%nat
        /\ le_value prefix = len msg).
Proof.
  intros E. rewrite (pack_obj_eq packb obj msg E), MAX_INT32_value.
  pose proof (len_nonneg msg).
  destruct (Z.ltb_spec (len msg) (2 ^ 31 - 1)) as [L|L]; split.
  - split; [discriminate | lia].
  - intros _. exists (le32 (len msg)).
    split; [reflexivity|]. split; [reflexivity|].
    apply le_value_le32. lia.
  - split; [lia | reflexivity].
  - lia.
Qed.

Lemma pack_obj_too_big_iff_witness :
  (pack_obj (@Ok bytes) [x2a; x07] = Raise AssertionError
   <-> 2 ^ 31 - 1 <= len [x2a; x07])
  /\ exists prefix,
      pack_obj (@Ok bytes) [x2a; x07] = Ok (prefix ++ [x2a; x07])
      /\ length prefix = 4%nat
      /\ le_value prefix = len [x2a; x07].
Proof.
  destruct (pack_obj_too_big_iff (@Ok bytes) [x2a; x07] [x2a; x07] eq_refl)
    as [Big Small].
  split; [exact Big|]. apply Small. unfold len. simpl. lia.
Defined.

(** ** Frames through the receive loop *)

Lemma run_script_eq (h : bytes -> result unit) (fuel : nat) (c : script) :
  run_script h fuel c
  = match loop script_recv h fuel (initial c) with
    | (NoFuel, s) => (NoFuel, s)
    | (ctl, s) => (ctl, finally_close script_close s)
    end.
Proof. reflexivity. Qed.

(** C1 (amended). Messages of at least one and fewer than [2^31 - 1] bytes,
    framed back to back and cut into chunks in any way, reach a handler that
    accepts them exactly as they were sent and in the order they were sent.
    The loop then returns if [recv] raises, and keeps calling [recv] if the
    peer has closed the stream.  Chunks need not even be non-empty. *)
Theorem run_delivers_frames_any_chunking
        (h : bytes -> result unit) (e : ending)
        (msgs : list bytes) (w : bytes) (chunks : list bytes) (fuel : nat) :
  Forall (fun msg => 1 <= len msg) msgs ->
  Forall (fun msg => h msg = Ok tt) msgs ->
  frames msgs = Ok w ->
  concat chunks = w ->
  (length msgs + length chunks + 1 < fuel)%nat ->
  delivered (snd (run_script h fuel (mk_script chunks e))) = msgs
  /\ fst (run_script h fuel (mk_script chunks e)) = end_control e.
Proof.
  intros Hpos Hh Hw Hc Hfuel.
  apply frames_inv in Hw. destruct Hw as [Hmax ->].
  rewrite run_script_eq. unfold initial.
  rewrite (loop_wire h e msgs fuel chunks [] [] 0%nat); auto.
  - now destruct e.
  - rewrite Forall_forall in *. intros msg Hin.
    specialize (Hpos msg Hin). specialize (Hmax msg Hin).
    change (2 ^ 31 - 1) with 2147483647 in Hmax.
    change (2 ^ 32) with 4294967296. lia.
Qed.

Lemma run_delivers_frames_any_chunking_witness :
  delivered (snd (run_script accept_all 8
                    (mk_script [[x01; x00]; [x00; x00; x07; x02];
                                [x00; x00; x00]; [x08; x09]] EndRaises)))
  = [[x07]; [x08; x09]]
  /\ fst (run_script accept_all 8
            (mk_script [[x01; x00]; [x00; x00; x07; x02];
                        [x00; x00; x00]; [x08; x09]] EndRaises))
     = end_control EndRaises.
Proof.
  apply (run_delivers_frames_any_chunking
           accept_all EndRaises [[x07]; [x08; x09]]
           [x01; x00; x00; x00; x07; x02; x00; x00; x00; x08; x09]).
  - repeat (apply Forall_cons; [unfold len; simpl; lia|]). apply Forall_nil.
  - repeat (apply Forall_cons; [reflexivity|]). apply Forall_nil.
  - reflexivity.
  - reflexivity.
  - simpl. lia.
Defined.

(** C1, as stated, fails: an empty message framed before another one and
    read in one chunk makes the loop consume the empty frame's prefix, wait
    for more, and return without any call of the handler when [recv]
    raises. *)
Lemma run_loses_frames_after_empty_message :
  frames [[]; [x07]] = Ok [x00; x00; x00; x00; x01; x00; x00; x00; x07]
  /\ run_script accept_all 10
       (mk_script [[x00; x00; x00; x00; x01; x00; x00; x00; x07]] EndRaises)
     = (Return,
        mk_run_state (mk_script [] EndRaises)
                     [x01; x00; x00; x00; x07] 0 [] 1)
  /\ delivered (snd (run_script accept_all 10
         (mk_script [[x00; x00; x00; x00; x01; x00; x00; x00; x07]] EndRaises)))
     <> [[]; [x07]].
Proof.
  split; [reflexivity|]. split; [reflexivity|]. discriminate.
Qed.

Lemma loop_single_frame (h : bytes -> result unit) (e : ending)
      (p : bytes) (fuel : nat) :
  1 <= len p < 2 ^ 32 ->
  (3 < fuel)%nat ->
  exists s,
    loop script_recv h fuel (initial (mk_script [encoded p] e))
    = (match h p with
       | Ok _ => end_control e
       | Raise x => Raising x
       end, s)
    /\ delivered s = [p] /\ closes s = 0%nat.
Proof.
  intros Hp Hfuel. destruct fuel as [|fuel]; [lia|].
  destruct (loop_frame h e p [] [] 0%nat [encoded p] fuel [] Hp)
    as (cs' & d' & Eq' & Lcs & Step).
  - cbn [concat app]. now rewrite !app_nil_r.
  - cbn [length]. lia.
  - unfold initial. rewrite Step. cbn [app].
    apply app_eq_nil in Eq'. destruct Eq' as [-> Hcs'].
    destruct (h p) as [[]|x].
    + rewrite (loop_wire h e [] fuel cs' [] [p] 0%nat); auto.
      * eexists. split; [reflexivity|]. now split.
      * cbn [length] in *. lia.
    + eexists. split; [reflexivity|]. now split.
Qed.

(** The frame of the empty message is four zero bytes; the loop takes them
    for "no length read yet" and goes back to waiting. *)
Lemma receive_empty_frame (e : ending) (del : list bytes) (k fuel : nat) :
  receive script_recv (S fuel)
          (mk_run_state (mk_script [encoded []] e) [] 0 del k)
  = receive script_recv fuel (mk_run_state (mk_script [] e) [] 0 del k).
Proof. reflexivity. Qed.

Lemma loop_empty_frame (h : bytes -> result unit) (e : ending) (fuel : nat) :
  (2 < fuel)%nat ->
  loop script_recv h fuel (initial (mk_script [encoded []] e))
  = (end_control e, mk_run_state (mk_script [] e) [] 0 [] 0).
Proof.
  intros Hfuel.
  destruct fuel as [|fuel]; [lia|]. rewrite loop_unfold.
  top_check.
  destruct fuel as [|fuel]; [lia|]. rewrite receive_empty_frame.
  rewrite (receive_idle e [] 0%nat [] fuel); [now destruct e | reflexivity |].
  cbn [length]. lia.
Qed.

(** C2 (amended). The frame of a message of at least one and fewer than
    [2^31 - 1] bytes, received in one piece, makes the loop call the handler
    exactly once, with that message; the loop then goes on as the handler
    and the transport decide.  The frame of the empty message, four zero
    bytes, causes no call of the handler at all. *)
Theorem run_delivers_single_frame
        (h : bytes -> result unit) (e : ending) (fuel : nat) (p w : bytes) :
  (3 < fuel)%nat ->
  1 <= len p ->
  frame p = Ok w ->
  (delivered (snd (run_script h fuel (mk_script [w] e))) = [p]
   /\ fst (run_script h fuel (mk_script [w] e))
      = match h p with
        | Ok _ => end_control e
        | Raise x => Raising x
        end)
  /\ (frame [] = Ok [x00; x00; x00; x00]
      /\ delivered (snd (run_script h fuel
                           (mk_script [[x00; x00; x00; x00]] e))) = []
      /\ fst (run_script h fuel (mk_script [[x00; x00; x00; x00]] e))
         = end_control e).
Proof.
  intros Hfuel Hp Hw. split.
  - apply frame_inv in Hw. destruct Hw as [Hmax ->].
    assert (R : 1 <= len p < 2 ^ 32).
    { change (2 ^ 31 - 1) with 2147483647 in Hmax.
      change (2 ^ 32) with 4294967296. lia. }
    destruct (loop_single_frame h e p fuel R Hfuel) as (s & L & D & _).
    rewrite run_script_eq, L.
    destruct (h p) as [[]|x]; [destruct e|]; now cbn.
  - split; [reflexivity|].
    change [x00; x00; x00; x00] with (encoded []).
    rewrite run_script_eq, loop_empty_frame by lia.
    now destruct e.
Qed.

Lemma run_delivers_single_frame_witness :
  (delivered (snd (run_script accept_all 4
                     (mk_script [[x01; x00; x00; x00; x2a]] EndRaises)))
   = [[x2a]]
   /\ fst (run_script accept_all 4
             (mk_script [[x01; x00; x00; x00; x2a]] EndRaises))
      = match accept_all [x2a] with
        | Ok _ => end_control EndRaises
        | Raise x => Raising x
        end)
  /\ (frame [] = Ok [x00; x00; x00; x00]
      /\ delivered (snd (run_script accept_all 4
                           (mk_script [[x00; x00; x00; x00]] EndRaises))) = []
      /\ fst (run_script accept_all 4
                (mk_script [[x00; x00; x00; x00]] EndRaises))
         = end_control EndRaises).
Proof.
  apply (run_delivers_single_frame accept_all EndRaises 4
                                   [x2a] [x01; x00; x00; x00; x2a]).
  - lia.
  - unfold len. simpl. lia.
  - reflexivity.
Defined.

(** C2, as stated, fails: the frame of the empty message is consumed
    without any call of the handler. *)
Lemma run_drops_empty_message :
  frame [] = Ok [x00; x00; x00; x00]
  /\ run_script accept_all 5 (mk_script [[x00; x00; x00; x00]] EndRaises)
     = (Return, mk_run_state (mk_script [] EndRaises) [] 0 [] 1)
  /\ delivered (snd (run_script accept_all 5
                       (mk_script [[x00; x00; x00; x00]] EndRaises)))
     <> [[]].
Proof.
  split; [reflexivity|]. split; [reflexivity|]. discriminate.
Qed.

(** ** How the loop can end, on any transport *)

Section AnyTransport.

Context {Conn : Type}.
Variable recv : Conn -> Z -> result bytes * Conn.
Variable close : Conn -> result unit * Conn.
Variable h : bytes -> result unit.

(** The inner loop never raises: [recv]'s exceptions are caught and the
    assertion on the prefix holds.  It leaves the ghost fields alone. *)
Lemma receive_ends (fuel : nat) :
  forall s : run_state Conn,
    match receive recv fuel s with
    | (Raising _, _) => False
    | (_, s') => delivered s' = delivered s /\ closes s' = closes s
    end.
Proof.
  induction fuel as [|fuel IH]; intros s; rewrite receive_unfold;
    destruct (must_receive s); try (now split).
  destruct (recv (connection s) BUFFER_SIZE) as [[rec|x] c]; [|now split].
  cbn zeta. unfold with_connection, with_locals.
  cbn [connection data number_of_bytes delivered closes].
  destruct ((number_of_bytes s =? 0) && (4 <=? len (data s ++ rec))) eqn:P.
  - apply andb_true_iff in P. destruct P as [_ L]. apply Z.leb_le in L.
    destruct (read_number_of_bytes_ok
                (mk_run_state c (data s ++ rec) (number_of_bytes s)
                              (delivered s) (closes s)) L)
      as (n & R & _).
    rewrite R. cbn [connection data delivered closes].
    apply (IH (mk_run_state c (slice_from 4 (data s ++ rec)) n
                            (delivered s) (closes s))).
  - apply (IH (mk_run_state c (data s ++ rec) (number_of_bytes s)
                            (delivered s) (closes s))).
Qed.

(** The outer loop ends by the [return] of line 281 or by an exception of
    the handler, raised on the message delivered last. *)
Lemma loop_ends (fuel : nat) :
  forall s : run_state Conn,
    match loop recv h fuel s with
    | (Exit, _) => False
    | (Raising x, s') =>
        h (last (delivered s') []) = Raise x /\ closes s' = closes s
    | (_, s') => closes s' = closes s
    end.
Proof.
  induction fuel as [|fuel IH]; intros s; [reflexivity|].
  rewrite loop_unfold.
  assert (Top : exists s1,
             (if (number_of_bytes s =? 0) && (4 <=? len (data s))
              then read_number_of_bytes s else Ok s) = Ok s1
             /\ closes s1 = closes s).
  { destruct ((number_of_bytes s =? 0) && (4 <=? len (data s))) eqn:P.
    - apply andb_true_iff in P. destruct P as [_ L]. apply Z.leb_le in L.
      destruct (read_number_of_bytes_ok s L) as (n & R & _).
      rewrite R. eexists. split; reflexivity.
    - exists s. split; reflexivity. }
  destruct Top as (s1 & -> & C1).
  pose proof (receive_ends fuel s1) as R.
  destruct (receive recv fuel s1) as [[| |x|] s2]; try tauto;
    try (destruct R as [_ R]; congruence).
  destruct R as [_ C2]. cbn zeta.
  destruct (h (slice_to (number_of_bytes s2) (data s2))) as [u|x] eqn:Hh.
  - match goal with |- context [loop recv h fuel ?t] =>
      specialize (IH t); destruct (loop recv h fuel t) as [[| |y|] s3]
    end; cbn [closes] in IH; try tauto; try congruence.
  - cbn [delivered closes]. rewrite last_last. split; congruence.
Qed.

End AnyTransport.

(** C3 (amended). Whatever four bytes the loop consumes as a length prefix,
    the value read is their little-endian value, it lies in [[0, 2^32)],
    the four bytes leave the buffer and the value becomes
    [number_of_bytes]: the only check made is [number_of_bytes >= 0], which
    holds, so no prefix makes the loop fail. *)
Theorem read_number_of_bytes_accepts {Conn} (s : run_state Conn) :
  4 <= len (data s) ->
  exists n,
    read_number_of_bytes s
    = Ok (mk_run_state (connection s) (slice_from 4 (data s)) n
                       (delivered s) (closes s))
    /\ n = le_value (slice_to 4 (data s))
    /\ 0 <= n < 2 ^ 32.
Proof. apply read_number_of_bytes_ok. Qed.

Lemma read_number_of_bytes_accepts_witness :
  4 <= len [xff; xff; xff; xff; x2a] /\
  exists n,
    read_number_of_bytes (mk_run_state tt [xff; xff; xff; xff; x2a] 0 [] 0)
    = Ok (mk_run_state tt (slice_from 4 [xff; xff; xff; xff; x2a]) n [] 0)
    /\ n = le_value (slice_to 4 [xff; xff; xff; xff; x2a])
    /\ 0 <= n < 2 ^ 32.
Proof.
  split; [unfold len; simpl; lia|].
  apply (read_number_of_bytes_accepts
           (mk_run_state tt [xff; xff; xff; xff; x2a] 0 [] 0)).
  unfold len; simpl; lia.
Defined.

(** C3, as stated, fails: the prefix [ff ff ff 7f] decodes to [2^31 - 1],
    which the loop takes as the size of the message; it waits for that many
    bytes and returns silently when the connection breaks. *)
Lemma run_accepts_prefix_max_int32 :
  read_number_of_bytes (mk_run_state tt [xff; xff; xff; x7f] 0 [] 0)
  = Ok (mk_run_state tt [] MAX_INT32 [] 0)
  /\ run_script accept_all 5 (mk_script [[xff; xff; xff; x7f]] EndRaises)
     = (Return, mk_run_state (mk_script [] EndRaises) [] (2 ^ 31 - 1) [] 1).
Proof. split; reflexivity. Qed.

(** C10. The value [struct.unpack("<I", ...)] gives for four bytes is never
    negative, so the assertion of lines 266 and 290 never fails: the only
    exception that leaves [run] is one the handler raised, on the message
    delivered last. *)
Theorem assertion_on_prefix_never_fails {Conn}
        (recv : Conn -> Z -> result bytes * Conn)
        (close : Conn -> result unit * Conn)
        (h : bytes -> result unit) :
  (forall b0 b1 b2 b3,
      exists n, struct_unpack_I [b0; b1; b2; b3] = Ok n /\ 0 <= n)
  /\ (forall (c : Conn) b0 b1 b2 b3 rest n0 del k,
         exists n,
           read_number_of_bytes
             (mk_run_state c (b0 :: b1 :: b2 :: b3 :: rest) n0 del k)
           = Ok (mk_run_state c rest n del k))
  /\ (forall fuel c,
         match run recv close h fuel c with
         | (Raising x, s) => h (last (delivered s) []) = Raise x
         | _ => True
         end).
Proof.
  split; [|split].
  - intros b0 b1 b2 b3. exists (le_value [b0; b1; b2; b3]).
    split; [apply struct_unpack_I_le_value | apply le_value_range_4].
  - intros c b0 b1 b2 b3 rest n0 del k.
    destruct (read_number_of_bytes_ok
                (mk_run_state c (b0 :: b1 :: b2 :: b3 :: rest) n0 del k))
      as (n & R & _).
    + unfold len. cbn [data length]. lia.
    + exists n. exact R.
  - intros fuel c. unfold run.
    pose proof (loop_ends recv h fuel (initial c)) as L.
    destruct (loop recv h fuel (initial c)) as [[| |x|] s]; try tauto.
    unfold finally_close. destruct (close (connection s)).
    cbn [delivered]. tauto.
Qed.

(** ** End of stream *)

(** With the stream at its end and a frame still incomplete, a call of
    [recv] changes nothing and the inner loop calls it again. *)
Lemma receive_stalled (d : bytes) (n : Z) (del : list bytes) (k : nat) :
  must_receive (mk_run_state (mk_script [] EndOfStream) d n del k) = true ->
  (n =? 0) && (4 <=? len d) = false ->
  forall fuel,
    receive script_recv fuel (mk_run_state (mk_script [] EndOfStream) d n del k)
    = (NoFuel, mk_run_state (mk_script [] EndOfStream) d n del k).
Proof.
  intros M P fuel.
  induction fuel as [|fuel IH]; rewrite receive_unfold, M; [reflexivity|].
  unfold script_recv, with_connection, with_locals.
  cbn [connection pending at_end data number_of_bytes delivered closes].
  rewrite app_nil_r, P. exact IH.
Qed.

(** C4, where the code departs from it. When [recv] raises, the loop
    returns and the socket is closed.  When the peer has closed the stream in
    order, [recv] returns the empty string and the loop never ends, whatever
    the fuel: neither while it waits for a prefix, nor while it waits for
    the rest of a message. *)
Theorem run_spins_at_end_of_stream (h : bytes -> result unit) (fuel : nat) :
  run_script h (S (S fuel)) (mk_script [] EndRaises)
  = (Return, mk_run_state (mk_script [] EndRaises) [] 0 [] 1)
  /\ run_script h fuel (mk_script [] EndOfStream)
     = (NoFuel, initial (mk_script [] EndOfStream))
  /\ run_script h (S (S fuel))
       (mk_script [[x05; x00; x00; x00; x01; x02]] EndOfStream)
     = (NoFuel, mk_run_state (mk_script [] EndOfStream) [x01; x02] 5 [] 0).
Proof.
  split; [reflexivity|].
  split; rewrite run_script_eq.
  - destruct fuel as [|fuel]; [reflexivity|].
    rewrite loop_unfold. top_check.
    now rewrite receive_stalled.
  - rewrite loop_unfold. top_check.
    change (receive script_recv (S fuel)
              (mk_run_state
                 (mk_script [[x05; x00; x00; x00; x01; x02]] EndOfStream)
                 [] 0 [] 0))
      with (receive script_recv fuel
              (mk_run_state (mk_script [] EndOfStream) [x01; x02] 5 [] 0)).
    now rewrite receive_stalled.
Qed.

(** ** [Server.shutdown] *)

(** C7. After one [shutdown()] the server holds no socket: [is_alive()] is
    false, the accept loop stops at its next test without accepting, and a
    second [shutdown()] changes nothing and closes nothing more. *)
Theorem shutdown_idempotent {Connection Handler : Type}
        (connection_handler_class : Connection -> result Handler)
        (start : Handler -> result unit)
        (sock_close : listener -> result unit)
        (self : Server) (w : list (effect Connection)) :
  let '(self1, w1) := shutdown sock_close self w in
  getattr_sock self1 = None
  /\ _shutdown_event self1 = true
  /\ is_alive self1 = false
  /\ shutdown sock_close self1 w1 = (self1, w1)
  /\ (forall rounds,
         serve_loop connection_handler_class start sock_close rounds self1 w1
         = (LoopDone, self1, w1)).
Proof.
  destruct self as [b ev [| |sock]]; unfold shutdown;
    cbn [getattr_sock _sock _block _shutdown_event];
    try destruct (sock_close sock);
    (repeat split; [destruct b; reflexivity | intros [|r rounds]; reflexivity]).
Qed.

(** ** The accept loop *)

Section AcceptLoop.

Context {Connection Handler : Type}.
Variable connection_handler_class : Connection -> result Handler.
Variable start : Handler -> result unit.
Variable sock_close : listener -> result unit.


End AcceptLoop.




(** ** [Server.get_port] *)

Lemma polling_skips (condition : nat -> bool) (clock : nat -> Z)
      (initial timeout : Z) :
  forall (n fuel k : nat),
    (forall j, (k <= j < k + n)%nat ->
               condition j = false /\ clock (S j) - initial <= timeout) ->
    polling condition clock (n + fuel) k initial timeout
    = polling condition clock fuel (k + n) initial timeout.
Proof.
  induction n as [|n IH]; intros fuel k Hj.
  - now rewrite Nat.add_0_r.
  - destruct (Hj k ltac:(lia)) as [Hc Ht].
    cbn [Nat.add polling]. rewrite Hc.
    destruct (Z.gtb_spec (clock (S k) - initial) timeout) as [G|G]; [lia|].
    rewrite IH.
    + f_equal. lia.
    + intros j Hjk. apply Hj. lia.
Qed.

(** C9. While the accept thread has not yet set [_sock] and no more than
    five seconds have passed, [get_port] sleeps and looks again.  If
    [_sock] then holds the bound socket, [get_port] returns its port; if
    instead the five seconds run out with [_sock] still missing, it raises
    (an [AttributeError]). *)
Theorem get_port_waits_for_bind (self_at : nat -> Server) (clock : nat -> Z)
        (n : nat) :
  (forall k, (k < n)%nat ->
             hasattr_sock (self_at k) = false
             /\ clock (S k) - clock 0%nat <= 5000) ->
  (forall sock fuel,
      _sock (self_at n) = AttrSock sock ->
      _sock (self_at (S n)) = AttrSock sock ->
      (n <= fuel)%nat ->
      get_port self_at clock fuel = Some (Ok (getsockname_port sock)))
  /\ (forall fuel,
         _sock (self_at n) = NoAttr ->
         _sock (self_at (S n)) = NoAttr ->
         5000 < clock (S n) - clock 0%nat ->
         (n <= fuel)%nat ->
         get_port self_at clock fuel = Some (Raise AttributeError)).
Proof.
  intros Wait.
  assert (Skip : forall fuel,
             polling (fun k => hasattr_sock (self_at k)) clock (n + fuel) 0
                     (clock 0%nat) 5000
             = polling (fun k => hasattr_sock (self_at k)) clock fuel n
                       (clock 0%nat) 5000).
  { intros fuel. rewrite polling_skips; [reflexivity|].
    intros j Hj. apply Wait. lia. }
  split.
  - intros sock fuel Hn HSn Hfuel.
    unfold get_port, wait_for_condition.
    replace fuel with (n + (fuel - n))%nat by lia. rewrite Skip.
    assert (C : hasattr_sock (self_at n) = true)
      by (unfold hasattr_sock; now rewrite Hn).
    destruct (fuel - n)%nat; cbn [polling]; rewrite C;
      unfold read_sock; now rewrite HSn.
  - intros fuel Hn HSn Late Hfuel.
    unfold get_port, wait_for_condition.
    replace fuel with (n + (fuel - n))%nat by lia. rewrite Skip.
    assert (C : hasattr_sock (self_at n) = false)
      by (unfold hasattr_sock; now rewrite Hn).
    destruct (fuel - n)%nat; cbn [polling]; rewrite C;
      (destruct (Z.gtb_spec (clock (S n) - clock 0%nat) 5000) as [G|G]; [|lia]);
      unfold read_sock; now rewrite HSn.
Qed.

Lemma get_port_waits_for_bind_witness :
  get_port (fun k => if (k <? 2)%nat then new_Server
                     else running None (mk_listener 8080))
           (fun k => 10 * Z.of_nat k) 2
  = Some (Ok 8080)
  /\ get_port (fun _ => new_Server) (fun k => 2000 * Z.of_nat k) 2
     = Some (Raise AttributeError).
Proof.
  split.
  - apply (proj1 (get_port_waits_for_bind
                    (fun k => if (k <? 2)%nat then new_Server
                              else running None (mk_listener 8080))
                    (fun k => 10 * Z.of_nat k) 2
                    ltac:(intros [|[|k]] Hk; [split; [reflexivity | simpl; lia] ..
                                              | lia]))
                 (mk_listener 8080) 2%nat);
      [reflexivity | reflexivity | lia].
  - apply (proj2 (get_port_waits_for_bind
                    (fun _ => new_Server) (fun k => 2000 * Z.of_nat k) 2
                    ltac:(intros [|[|k]] Hk; [split; [reflexivity | simpl; lia] ..
                                              | lia]))
                 2%nat);
      [reflexivity | reflexivity | simpl; lia | lia].
Defined.

(** * Further properties *)

(** ** Waiting for a condition *)

Lemma polling_sound (condition : nat -> bool) (clock : nat -> Z)
      (initial timeout : Z) :
  forall (fuel k0 : nat) (b : bool) (k : nat),
    polling condition clock fuel k0 initial timeout = Some (b, k) ->
    exists n,
      k = S n /\ (k0 <= n <= k0 + fuel)%nat
      /\ (forall j, (k0 <= j < n)%nat ->
                    condition j = false /\ clock (S j) - initial <= timeout)
      /\ (if b then condition n = true
          else condition n = false /\ timeout < clock (S n) - initial).
Proof.
  induction fuel as [|fuel IH]; intros k0 b k; cbn [polling];
    destruct (condition k0) eqn:C;
    try (intros E; inversion E; subst; exists k0;
         repeat split; auto; try lia; intros; lia);
    destruct (Z.gtb_spec (clock (S k0) - initial) timeout) as [G|G];
    try (intros E; inversion E; subst; exists k0;
         repeat split; auto; try lia; intros; lia);
    try discriminate.
  intros E. destruct (IH _ _ _ E) as (n & -> & Hn & Before & Last).
  exists n. repeat split; try lia; auto.
  - destruct (Nat.eq_dec j k0) as [->|Hj]; [assumption|].
    apply Before. lia.
  - destruct (Nat.eq_dec j k0) as [->|Hj]; [assumption|].
    apply Before. lia.
Qed.

(** X1. What the result of [wait_for_condition] means: [True] is returned
    only right after a poll that found the condition true, [False] only
    right after a poll that found it false with the timeout exceeded; every
    earlier poll found the condition false and the timeout not exceeded. *)
Theorem wait_for_condition_sound (condition : nat -> bool) (clock : nat -> Z)
        (fuel : nat) (timeout : Z) (b : bool) (k : nat) :
  wait_for_condition condition clock fuel timeout = Some (b, k) ->
  exists n,
    k = S n /\ (n <= fuel)%nat
    /\ (forall j, (j < n)%nat ->
                  condition j = false /\ clock (S j) - clock 0%nat <= timeout)
    /\ (if b then condition n = true
        else condition n = false /\ timeout < clock (S n) - clock 0%nat).
Proof.
  intros E. destruct (polling_sound _ _ _ _ _ _ _ _ E) as (n & Hk & Hn & B & L).
  exists n. split; [assumption|]. split; [lia|]. split; [|assumption].
  intros j Hj. apply B. lia.
Qed.

Lemma wait_for_condition_sound_witness :
  exists n,
    3%nat = S n /\ (n <= 5)%nat
    /\ (forall j, (j < n)%nat ->
                  Nat.eqb j 2 = false
                  /\ 10 * Z.of_nat (S j) - 10 * Z.of_nat 0 <= 2000)
    /\ Nat.eqb n 2 = true.
Proof.
  apply (wait_for_condition_sound (fun k => Nat.eqb k 2)
                                  (fun k => 10 * Z.of_nat k) 5 2000 true 3).
  reflexivity.
Defined.

(** X2. [wait_for_condition] returns as soon as it can: after polls that
    found the condition false within the timeout, it returns [True] at the
    first poll that finds the condition true, and [False] at the first poll
    that finds it false with the timeout exceeded; it has slept once per
    earlier poll. *)
Theorem wait_for_condition_decides (condition : nat -> bool) (clock : nat -> Z)
        (timeout : Z) (n fuel : nat) :
  (forall j, (j < n)%nat ->
             condition j = false /\ clock (S j) - clock 0%nat <= timeout) ->
  (n <= fuel)%nat ->
  (condition n = true ->
   wait_for_condition condition clock fuel timeout = Some (true, S n))
  /\ (condition n = false ->
      timeout < clock (S n) - clock 0%nat ->
      wait_for_condition condition clock fuel timeout = Some (false, S n)).
Proof.
  intros Before Hfuel. unfold wait_for_condition.
  replace fuel with (n + (fuel - n))%nat by lia.
  rewrite polling_skips by (intros j Hj; apply Before; lia).
  cbn [Nat.add]. split.
  - intros C. destruct (fuel - n)%nat; cbn [polling]; now rewrite C.
  - intros C Late.
    destruct (fuel - n)%nat; cbn [polling]; rewrite C;
      now destruct (Z.gtb_spec (clock (S n) - clock 0%nat) timeout); try lia.
Qed.

Lemma wait_for_condition_decides_witness :
  wait_for_condition (fun k => Nat.eqb k 2) (fun k => 10 * Z.of_nat k) 5 2000
  = Some (true, 3%nat)
  /\ wait_for_condition (fun _ => false) (fun k => 2000 * Z.of_nat k) 3 5000
     = Some (false, 3%nat).
Proof.
  split.
  - apply (proj1 (wait_for_condition_decides
                    (fun k => Nat.eqb k 2) (fun k => 10 * Z.of_nat k) 2000 2 5
                    ltac:(intros [|[|j]] Hj;
                          [split; [reflexivity | simpl; lia] .. | lia])
                    ltac:(lia))).
    reflexivity.
  - apply (proj2 (wait_for_condition_decides
                    (fun _ => false) (fun k => 2000 * Z.of_nat k) 5000 2 3
                    ltac:(intros [|[|j]] Hj;
                          [split; [reflexivity | simpl; lia] .. | lia])
                    ltac:(lia))).
    + reflexivity.
    + simpl. lia.
Defined.

Lemma asserting_polling (condition : nat -> bool) (clock : nat -> Z)
      (initial timeout : Z) :
  forall fuel k,
    asserting condition clock fuel k initial timeout
    = match polling condition clock fuel k initial timeout with
      | Some (true, _) => Some (Ok tt)
      | Some (false, _) => Some (Raise AssertionError)
      | None => None
      end.
Proof.
  induction fuel as [|fuel IH]; intros k; cbn [asserting polling];
    destruct (condition k); try reflexivity;
    destruct (clock (S k) - initial >? timeout); try reflexivity.
  apply IH.
Qed.

(** X3. [assert_waited_condition] waits exactly as [wait_for_condition]
    does: it returns where that one returns [True] and raises the assertion
    error where that one returns [False]. *)
Theorem assert_waited_condition_agrees (condition : nat -> bool)
        (clock : nat -> Z) (fuel : nat) (timeout : Z) :
  assert_waited_condition condition clock fuel timeout
  = match wait_for_condition condition clock fuel timeout with
    | Some (true, _) => Some (Ok tt)
    | Some (false, _) => Some (Raise AssertionError)
    | None => None
    end.
Proof. apply asserting_polling. Qed.

(** X4. Once the server has been bound and shut down, [get_port] does not
    wait: [_sock] is there, but it is [None], and the call raises at its
    first look. *)
Theorem get_port_after_shutdown {Connection : Type}
        (sock_close : listener -> result unit)
        (self : Server) (w : list (effect Connection))
        (clock : nat -> Z) (fuel : nat) :
  hasattr_sock self = true ->
  get_port (fun _ => fst (shutdown sock_close self w)) clock fuel
  = Some (Raise AttributeError).
Proof.
  intros H. unfold get_port, wait_for_condition.
  assert (S1 : _sock (fst (shutdown sock_close self w)) = AttrNone).
  { unfold shutdown. destruct self as [b ev [| |sock]];
      cbn [getattr_sock _sock _block _shutdown_event] in *;
      try discriminate; [reflexivity|].
    now destruct (sock_close sock). }
  destruct fuel; cbn [polling]; unfold hasattr_sock, read_sock;
    now rewrite S1.
Qed.

Lemma get_port_after_shutdown_witness :
  get_port (fun _ => fst (shutdown (fun _ => Ok tt)
                                   (running (Some false) (mk_listener 8080))
                                   (@nil (effect nat))))
           (fun k => Z.of_nat k) 0
  = Some (Raise AttributeError).
Proof.
  apply (get_port_after_shutdown (fun _ => Ok tt)
                                 (running (Some false) (mk_listener 8080))
                                 (@nil (effect nat)) (fun k => Z.of_nat k) 0).
  reflexivity.
Defined.

(** ** The life of a server *)

Lemma closed_listeners_app {Connection : Type} (w1 w2 : list (effect Connection)) :
  closed_listeners (w1 ++ w2) = closed_listeners w1 ++ closed_listeners w2.
Proof.
  induction w1 as [|[sock| |c] w1 IH]; cbn [app closed_listeners];
    now rewrite ?IH.
Qed.

Section ServerLife.

Context {Connection Handler : Type}.
Variable connection_handler_class : Connection -> result Handler.
Variable start : Handler -> result unit.
Variable sock_close : listener -> result unit.

(** [shutdown] on a server that holds its socket. *)
Lemma shutdown_bound (b : option bool) (ev : bool) (sock : listener)
      (w : list (effect Connection)) :
  exists w',
    shutdown sock_close (mk_Server b ev (AttrSock sock)) w
    = (mk_Server b true AttrNone, w')
    /\ closed_listeners w' = closed_listeners w ++ [sock].
Proof.
  unfold shutdown. cbn [getattr_sock _sock _block _shutdown_event].
  destruct (sock_close sock); eexists; (split; [reflexivity|]);
    now rewrite closed_listeners_app.
Qed.

(** The accept loop leaves the server and its socket alone, unless another
    thread shuts the server down, which closes the socket and ends the
    loop. *)
Lemma serve_loop_keeps_or_closes (b : option bool) (sock : listener) :
  forall (rounds : list (round Connection)) (w : list (effect Connection)),
    match serve_loop connection_handler_class start sock_close rounds
                     (running b sock) w with
    | (LoopWaiting, self', w') =>
        self' = running b sock /\ closed_listeners w' = closed_listeners w
    | (_, self', w') =>
        (self' = running b sock /\ closed_listeners w' = closed_listeners w)
        \/ (self' = mk_Server b true AttrNone
            /\ closed_listeners w' = closed_listeners w ++ [sock])
    end.
Proof.
  induction rounds as [|[i sel acc] rounds IH]; intros w; [now split|].
  unfold running in *. cbn [serve_loop _shutdown_event read_sock _sock].
  cbn [interrupted selected accepted].
  destruct i.
  - destruct (shutdown_bound b false sock w) as (w' & -> & Hw').
    destruct sel as [ready|x]; cbn [_shutdown_event]; right; now split.
  - destruct sel as [[|]|x]; cbn [_shutdown_event read_sock _sock].
    + destruct acc as [connection|x]; [|left; now split].
      destruct (connection_handler <- connection_handler_class connection ;;
                start connection_handler).
      * specialize (IH (w ++ [HandlerStarted connection])).
        rewrite closed_listeners_app in IH. cbn [closed_listeners] in IH.
        rewrite app_nil_r in IH. exact IH.
      * specialize (IH (w ++ [PrintTraceback])).
        rewrite closed_listeners_app in IH. cbn [closed_listeners] in IH.
        rewrite app_nil_r in IH. exact IH.
    + apply IH.
    + left. now split.
Qed.

(** How [_serve_forever] ends, and what it has done to its socket by
    then. *)
Lemma _serve_forever_ends (sock : listener)
        (rounds : list (round Connection)) (self : Server)
        (w : list (effect Connection)) :
  match _serve_forever connection_handler_class start sock_close
                       (Ok sock) rounds self w with
  | (LoopWaiting, self', w') =>
      self' = mk_Server (_block self) false (AttrSock sock)
      /\ closed_listeners w' = closed_listeners w
  | (_, self', w') =>
      self' = mk_Server (_block self) true AttrNone
      /\ closed_listeners w' = closed_listeners w ++ [sock]
  end.
Proof.
  unfold _serve_forever. destruct self as [b ev s0].
  cbn [_block _shutdown_event].
  destruct ev.
  - (* shut down before the loop starts *)
    replace (serve_loop connection_handler_class start sock_close rounds
                        (mk_Server b true (AttrSock sock)) w)
      with (LoopDone, mk_Server b true (AttrSock sock), w)
      by (destruct rounds; reflexivity).
    destruct (shutdown_bound b true sock w) as (w' & -> & Hw'). now split.
  - pose proof (serve_loop_keeps_or_closes b sock rounds w) as L.
    unfold running in L.
    destruct (serve_loop connection_handler_class start sock_close rounds
                         (mk_Server b false (AttrSock sock)) w)
      as [[[|x|] s1] w1]; [| |exact L];
      (destruct L as [[-> Hw1] | [-> Hw1]];
       [ destruct (shutdown_bound b false sock w1) as (w' & -> & Hw');
         split; [reflexivity | congruence]
       | unfold shutdown; cbn [getattr_sock _sock _block _shutdown_event];
         now split ]).
Qed.



(** X6. Connections that are accepted one after the other are each given
    one handler, in the order of their arrival; where building or starting
    the handler fails only a traceback is left, and the loop is then back in
    [select] with the server as it was. *)
Theorem serve_loop_attempts_each (b : option bool) (sock : listener)
        (connections : list Connection) (w : list (effect Connection)) :
  serve_loop connection_handler_class start sock_close
             (map (fun c => mk_round false (Ok true) (Ok c)) connections)
             (running b sock) w
  = (LoopWaiting, running b sock,
     w ++ map (attempt connection_handler_class start) connections).
Proof.
  revert w. induction connections as [|c cs IH]; intros w.
  - cbn. now rewrite app_nil_r.
  - unfold running in *. cbn [map serve_loop _shutdown_event read_sock _sock].
    cbn [interrupted selected accepted _shutdown_event read_sock _sock].
    unfold attempt at 1.
    destruct (connection_handler <- connection_handler_class c ;;
              start connection_handler);
      rewrite IH, <- app_assoc; reflexivity.
Qed.

Lemma _serve_forever_block (bound : result listener)
      (rounds : list (round Connection)) (self : Server)
      (w : list (effect Connection)) :
  _block (snd (fst (_serve_forever connection_handler_class start sock_close
                                   bound rounds self w)))
  = _block self.
Proof.
  destruct bound as [sock|e]; [|reflexivity].
  pose proof (_serve_forever_ends sock rounds self w) as H.
  destruct (_serve_forever connection_handler_class start sock_close
                           (Ok sock) rounds self w) as [[[|x|] s1] w1];
    destruct H as [-> _]; reflexivity.
Qed.

Lemma serve_forever_block (block : bool) (bound : result listener)
      (rounds : list (round Connection)) (self : Server)
      (w : list (effect Connection)) :
  _block self = None ->
  _block (server (serve_forever connection_handler_class start sock_close
                                block bound rounds self w))
  = match outcome (serve_forever connection_handler_class start sock_close
                                 block bound rounds self w) with
    | LoopDone => Some block
    | _ => None
    end.
Proof.
  intros Hb. unfold serve_forever. rewrite Hb.
  pose proof (_serve_forever_block bound rounds self w) as B.
  destruct block; [|reflexivity].
  destruct (_serve_forever connection_handler_class start sock_close
                           bound rounds self w) as [[[|x|] s1] w1];
    cbn [fst snd] in B; cbn [outcome server _block]; congruence.
Qed.

(** X7. A server can be started once: after a call of [serve_forever] that
    returned, a further call raises the assertion error and changes
    nothing.  A blocking call that ended with an exception has not set
    [_block]. *)
Theorem serve_forever_only_once (block block' : bool)
        (bound bound' : result listener)
        (rounds rounds' : list (round Connection))
        (self : Server) (w : list (effect Connection)) :
  _block self = None ->
  (outcome (serve_forever connection_handler_class start sock_close
                          block bound rounds self w) = LoopDone ->
   serve_forever connection_handler_class start sock_close block' bound' rounds'
     (server (serve_forever connection_handler_class start sock_close
                            block bound rounds self w))
     (effects (serve_forever connection_handler_class start sock_close
                             block bound rounds self w))
   = mk_started (LoopRaising AssertionError)
       (server (serve_forever connection_handler_class start sock_close
                              block bound rounds self w))
       (effects (serve_forever connection_handler_class start sock_close
                               block bound rounds self w))
       false)
  /\ (forall x,
         outcome (serve_forever connection_handler_class start sock_close
                                block bound rounds self w) = LoopRaising x ->
         _block (server (serve_forever connection_handler_class start
                                       sock_close block bound rounds self w))
         = None).
Proof.
  intros Hb.
  pose proof (serve_forever_block block bound rounds self w Hb) as B.
  remember (serve_forever connection_handler_class start sock_close
                          block bound rounds self w) as r eqn:Hr.
  clear Hr. split.
  - intros Done. rewrite Done in B. unfold serve_forever. now rewrite B.
  - intros x Raised. now rewrite Raised in B.
Qed.

(** X8. A server run with [block=True] is never reported alive: while
    [_serve_forever] runs in the caller [_block] is still [None], and once it
    has returned the socket is closed and [_sock] is [None]. *)
Theorem blocking_server_is_never_alive (bound : result listener)
        (rounds : list (round Connection)) (self : Server)
        (w : list (effect Connection)) :
  _block self = None ->
  is_alive (server (serve_forever connection_handler_class start sock_close
                                  true bound rounds self w)) = false.
Proof.
  intros Hb. unfold serve_forever. rewrite Hb.
  destruct bound as [sock|e]; [|unfold is_alive; cbn; now rewrite Hb].
  pose proof (_serve_forever_ends sock rounds self w) as H.
  destruct (_serve_forever connection_handler_class start sock_close
                           (Ok sock) rounds self w) as [[[|x|] s1] w1];
    destruct H as [-> _]; cbn [server]; unfold is_alive;
    cbn [_block _sock getattr_sock _shutdown_event]; now rewrite ?Hb.
Qed.

End ServerLife.

Lemma serve_forever_only_once_witness :
  serve_forever (fun c : nat => Ok c) (fun _ => Ok tt) (fun _ => Ok tt)
                true (Ok (mk_listener 8081)) []
                (mk_Server (Some false) false NoAttr) []
  = mk_started (LoopRaising AssertionError)
               (mk_Server (Some false) false NoAttr) [] false
  /\ _block (server (serve_forever
                       (fun c : nat => Ok c) (fun _ => Ok tt) (fun _ => Ok tt)
                       true (Ok (mk_listener 8080))
                       [mk_round false (Ok true) (Raise SocketError)]
                       new_Server []))
     = None.
Proof.
  split.
  - apply (proj1 (serve_forever_only_once
                    (fun c : nat => Ok c) (fun _ => Ok tt) (fun _ => Ok tt)
                    false true (Ok (mk_listener 8080)) (Ok (mk_listener 8081))
                    [] [] new_Server [] eq_refl)).
    reflexivity.
  - apply (proj2 (serve_forever_only_once
                    (fun c : nat => Ok c) (fun _ => Ok tt) (fun _ => Ok tt)
                    true true (Ok (mk_listener 8080)) (Ok (mk_listener 8080))
                    [mk_round false (Ok true) (Raise SocketError)] []
                    new_Server [] eq_refl) SocketError).
    reflexivity.
Defined.

Lemma blocking_server_is_never_alive_witness :
  is_alive (server (serve_forever
                      (fun c : nat => Ok c) (fun _ => Ok tt) (fun _ => Ok tt)
                      true (Ok (mk_listener 8080))
                      [mk_round false (Ok true) (Ok 1%nat)] new_Server []))
  = false.
Proof.
  apply (blocking_server_is_never_alive
           (fun c : nat => Ok c) (fun _ => Ok tt) (fun _ => Ok tt)
           (Ok (mk_listener 8080)) [mk_round false (Ok true) (Ok 1%nat)]
           new_Server []).
  reflexivity.
Defined.

(** X9. A server that was shut down before it is started still binds its
    socket, but accepts nothing: whatever connections are waiting,
    [_serve_forever] leaves its loop at the first test and closes the
    socket. *)
Theorem _serve_forever_after_shutdown {Connection Handler : Type}
        (connection_handler_class : Connection -> result Handler)
        (start : Handler -> result unit)
        (sock_close : listener -> result unit)
        (sock : listener) (rounds : list (round Connection))
        (self : Server) (w : list (effect Connection)) :
  let '(self1, w1) := shutdown sock_close self w in
  _serve_forever connection_handler_class start sock_close
                 (Ok sock) rounds self1 w1
  = (LoopDone, mk_Server (_block self) true AttrNone,
     w1 ++ CloseListener sock
           :: match sock_close sock with
              | Ok _ => []
              | Raise _ => [PrintTraceback]
              end).
Proof.
  assert (E : exists s0 w1,
             shutdown sock_close self w
             = (mk_Server (_block self) true s0, w1)).
  { unfold shutdown. destruct (getattr_sock _); [destruct (sock_close _)|];
      eexists _, _; reflexivity. }
  destruct E as (s0 & w1 & ->).
  unfold _serve_forever. cbn [_block _shutdown_event].
  replace (serve_loop connection_handler_class start sock_close rounds
                      (mk_Server (_block self) true (AttrSock sock)) w1)
    with (LoopDone, mk_Server (_block self) true (AttrSock sock), w1)
    by (destruct rounds; reflexivity).
  unfold shutdown. cbn [getattr_sock _sock _block _shutdown_event].
  now destruct (sock_close sock).
Qed.

(** ** What the receive loop hands to the handler *)

Section Delivered.

Context {Conn : Type}.
Variable recv : Conn -> Z -> result bytes * Conn.
Variable close : Conn -> result unit * Conn.
Variable h : bytes -> result unit.

Lemma read_number_of_bytes_fields (s s' : run_state Conn) :
  read_number_of_bytes s = Ok s' ->
  0 <= number_of_bytes s' < 2 ^ 32 /\ delivered s' = delivered s.
Proof.
  unfold read_number_of_bytes.
  destruct (struct_unpack_I (slice_to 4 (data s))) as [n|] eqn:U;
    cbn [bind]; [|discriminate].
  destruct (Z.leb_spec 0 n); [|discriminate].
  intros E. inversion E; subst s'. cbn [number_of_bytes delivered].
  split; [|reflexivity].
  destruct (slice_to 4 (data s)) as [|b0 [|b1 [|b2 [|b3 [|]]]]];
    try discriminate.
  rewrite struct_unpack_I_le_value in U. inversion U.
  apply le_value_range_4.
Qed.

(** The inner loop keeps [number_of_bytes] a 32-bit unsigned value, and
    leaves only when the buffer holds that many bytes, at least one. *)
Lemma receive_exit (fuel : nat) :
  forall s : run_state Conn,
    0 <= number_of_bytes s < 2 ^ 32 ->
    0 <= number_of_bytes (snd (receive recv fuel s)) < 2 ^ 32
    /\ (fst (receive recv fuel s) = Exit ->
        must_receive (snd (receive recv fuel s)) = false).
Proof.
  induction fuel as [|fuel IH]; intros s R; rewrite receive_unfold;
    destruct (must_receive s) eqn:M; cbn [fst snd];
    try (split; [assumption | congruence]).
  destruct (recv (connection s) BUFFER_SIZE) as [[rec|x] c];
    [|cbn [fst snd]; split; [assumption | discriminate]].
  cbn zeta. unfold with_connection, with_locals.
  cbn [connection data number_of_bytes delivered closes].
  destruct ((number_of_bytes s =? 0) && (4 <=? len (data s ++ rec))) eqn:P.
  - destruct (read_number_of_bytes _) as [s1|x] eqn:Rd;
      [|cbn [fst snd]; split; [assumption | discriminate]].
    apply IH. now apply read_number_of_bytes_fields in Rd.
  - now apply IH.
Qed.

Lemma loop_delivers_whole (fuel : nat) :
  forall s : run_state Conn,
    0 <= number_of_bytes s < 2 ^ 32 ->
    Forall (fun msg => 1 <= len msg < 2 ^ 32) (delivered s) ->
    Forall (fun msg => 1 <= len msg < 2 ^ 32)
           (delivered (snd (loop recv h fuel s))).
Proof.
  induction fuel as [|fuel IH]; intros s R D; [exact D|].
  rewrite loop_unfold.
  assert (Top : exists s1,
             (if (number_of_bytes s =? 0) && (4 <=? len (data s))
              then read_number_of_bytes s else Ok s) = Ok s1
             /\ 0 <= number_of_bytes s1 < 2 ^ 32
             /\ delivered s1 = delivered s).
  { destruct ((number_of_bytes s =? 0) && (4 <=? len (data s))) eqn:P.
    - apply andb_true_iff in P. destruct P as [_ L]. apply Z.leb_le in L.
      destruct (read_number_of_bytes_ok s L) as (n & Rd & _).
      rewrite Rd. eexists. split; [reflexivity|].
      now apply read_number_of_bytes_fields in Rd.
    - exists s. now repeat split. }
  destruct Top as (s1 & -> & R1 & D1).
  pose proof (receive_exit fuel s1 R1) as [R2 Ex].
  pose proof (receive_ends recv fuel s1) as Keep.
  destruct (receive recv fuel s1) as [[| |x|] s2]; cbn [fst snd] in *;
    try (destruct Keep as [Keep _]; now rewrite Keep, D1);
    [|contradiction].
  destruct Keep as [Keep _].
  apply must_receive_false in Ex; [|reflexivity]. destruct Ex as [N0 Le].
  cbn zeta.
  assert (Msg : 1 <= len (slice_to (number_of_bytes s2) (data s2)) < 2 ^ 32).
  { unfold slice_to, len in *. rewrite length_firstn. lia. }
  assert (D2 : Forall (fun msg => 1 <= len msg < 2 ^ 32)
                      (delivered s2
                       ++ [slice_to (number_of_bytes s2) (data s2)])).
  { apply Forall_app. split; [now rewrite Keep, D1 | now constructor]. }
  destruct (h (slice_to (number_of_bytes s2) (data s2))); [|exact D2].
  apply IH; [cbn [number_of_bytes]; lia | exact D2].
Qed.

(** X10. On any transport and whatever bytes arrive, the handler is never
    called with an empty message, nor with one of [2^32] bytes or more. *)
Theorem run_never_delivers_empty (fuel : nat) (c : Conn) :
  Forall (fun msg => 1 <= len msg < 2 ^ 32)
         (delivered (snd (run recv close h fuel c))).
Proof.
  unfold run.
  pose proof (loop_delivers_whole fuel (initial c)) as D.
  destruct (loop recv h fuel (initial c)) as [[| |x|] s];
    unfold finally_close; try destruct (close (connection s));
    cbn [snd delivered] in *; apply D;
    try (cbn [initial number_of_bytes]; lia); constructor.
Qed.

End Delivered.

(** ** Frames on the wire *)

Lemma encoded_inj (m m' r r' : bytes) :
  len m < 2 ^ 32 -> len m' < 2 ^ 32 ->
  encoded m ++ r = encoded m' ++ r' -> m = m' /\ r = r'.
Proof.
  intros Hm Hm' E. unfold encoded in E. rewrite <- !app_assoc in E.
  assert (P : le32 (len m) = le32 (len m')).
  { pose proof (slice_to_prefix (le32 (len m')) (le32 (len m))
                                (m ++ r) (m' ++ r') E) as S.
    rewrite !len_le32 in S. specialize (S ltac:(lia)).
    now rewrite <- S. }
  rewrite P in E. apply app_inv_head in E.
  assert (L : len m = len m').
  { rewrite <- (le_value_le32 (len m)), <- (le_value_le32 (len m')), P;
      [reflexivity | |]; pose proof (len_nonneg m); pose proof (len_nonneg m');
      lia. }
  pose proof (slice_to_prefix m' m r r' E ltac:(lia)) as S.
  pose proof (slice_from_prefix m' m r r' E ltac:(lia)) as T.
  unfold slice_to, slice_from in *. rewrite <- L in *. unfold len in *.
  rewrite Nat2Z.id in *.
  rewrite firstn_all in S. rewrite skipn_all in T. now split.
Qed.

Lemma wire_inj :
  forall msgs msgs' : list bytes,
    Forall (fun m => len m < 2 ^ 32) msgs ->
    Forall (fun m => len m < 2 ^ 32) msgs' ->
    wire msgs = wire msgs' -> msgs = msgs'.
Proof.
  induction msgs as [|m msgs IH]; intros [|m' msgs'] H H' E;
    try reflexivity;
    try (exfalso; apply (f_equal (@length byte)) in E;
         unfold wire, encoded in E; cbn [map concat] in E;
         rewrite !length_app in E; cbn [length le32] in E; lia).
  inversion H; inversion H'; subst.
  unfold wire in E. cbn [map concat] in E.
  apply encoded_inj in E; auto. destruct E as [-> E].
  f_equal. now apply IH.
Qed.

(** X11. Framing is unambiguous: two sequences of messages that [pack_obj]
    frames into the same byte string are the same sequence. *)
Theorem frames_injective (msgs msgs' : list bytes) (w : bytes) :
  frames msgs = Ok w -> frames msgs' = Ok w -> msgs = msgs'.
Proof.
  intros F F'. apply frames_inv in F, F'.
  destruct F as [H ->], F' as [H' E].
  apply wire_inj; auto;
    eapply Forall_impl; try eassumption; cbn beta; intros m Hm;
    change (2 ^ 31 - 1) with 2147483647 in Hm;
    change (2 ^ 32) with 4294967296; lia.
Qed.

Lemma frames_injective_witness :
  [[x07]; [x08; x09]] = [[x07]; [x08; x09]].
Proof.
  apply (frames_injective
           [[x07]; [x08; x09]] [[x07]; [x08; x09]]
           [x01; x00; x00; x00; x07; x02; x00; x00; x00; x08; x09]);
    reflexivity.
Defined.

(** ** From [Client.send] to [_handle_decoded] *)

Section EndToEnd.

Context {Obj : Type}.
Variable packb : Obj -> result bytes.
Variable unpackb : bytes -> result Obj.
Variable _handle_decoded : Obj -> result unit.

Lemma send_each_pipe :
  forall (objs : list Obj) (out out' : bytes),
    Forall (round_trips packb unpackb _handle_decoded) objs ->
    send_each packb pipe_sendall out objs = (Ok tt, out') ->
    exists msgs,
      out' = out ++ wire msgs
      /\ Forall (fun m => 1 <= len m < 2 ^ 32) msgs
      /\ Forall (fun m => _handle_msg unpackb _handle_decoded m = Ok tt) msgs
      /\ map unpackb msgs = map Ok objs.
Proof.
  induction objs as [|obj objs IH]; intros out out' RT S.
  - cbn in S. inversion S. exists []. cbn. rewrite app_nil_r.
    repeat split; constructor.
  - inversion RT as [|? ? (msg & P & L & U & H) RT']; subst.
    cbn [send_each] in S. unfold send in S.
    rewrite (pack_obj_eq packb obj msg P) in S.
    destruct (Z.ltb_spec (len msg) MAX_INT32) as [Lt|Ge];
      [|discriminate].
    unfold pipe_sendall at 1 in S.
    destruct (IH _ _ RT' S) as (msgs & -> & Hl & Hh & Hu).
    exists (msg :: msgs). unfold wire. cbn [map concat].
    rewrite <- app_assoc. repeat split.
    + constructor; [|assumption].
      rewrite MAX_INT32_value in Lt.
      change (2 ^ 31 - 1) with 2147483647 in Lt.
      change (2 ^ 32) with 4294967296. lia.
    + constructor; [|assumption].
      unfold _handle_msg. rewrite U. exact H.
    + now rewrite U, Hu.
Qed.

(** X12. Objects sent one after the other with [Client.send] arrive whole
    and in order: if the codec round-trips them to at least one byte each
    and the application accepts them, then however the transport cuts the
    bytes written, the receive loop calls [_handle_msg] once per object and
    [unpackb] gives [_handle_decoded] the objects that were sent. *)
Theorem sent_objects_are_decoded (objs : list Obj) (out : bytes)
        (chunks : list bytes) (e : ending) (fuel : nat) :
  Forall (round_trips packb unpackb _handle_decoded) objs ->
  send_each packb pipe_sendall [] objs = (Ok tt, out) ->
  concat chunks = out ->
  (length objs + length chunks + 1 < fuel)%nat ->
  map unpackb
      (delivered (snd (run_script (_handle_msg unpackb _handle_decoded) fuel
                                  (mk_script chunks e))))
  = map Ok objs
  /\ fst (run_script (_handle_msg unpackb _handle_decoded) fuel
                     (mk_script chunks e))
     = end_control e.
Proof.
  intros RT S C Hfuel.
  destruct (send_each_pipe objs [] out RT S) as (msgs & -> & Hl & Hh & Hu).
  cbn [app] in C.
  assert (Len : length msgs = length objs).
  { apply (f_equal (@length _)) in Hu. now rewrite !length_map in Hu. }
  rewrite run_script_eq. unfold initial.
  rewrite (loop_wire _ e msgs fuel chunks [] [] 0%nat); auto; [|lia].
  cbn [app]. now destruct e.
Qed.

End EndToEnd.

Lemma sent_objects_are_decoded_witness :
  map (@Ok bytes)
      (delivered (snd (run_script (_handle_msg (@Ok bytes) (fun _ => Ok tt)) 8
                         (mk_script [[x01; x00]; [x00; x00; x07; x02];
                                     [x00; x00; x00]; [x08; x09]] EndRaises))))
  = map Ok [[x07]; [x08; x09]]
  /\ fst (run_script (_handle_msg (@Ok bytes) (fun _ => Ok tt)) 8
            (mk_script [[x01; x00]; [x00; x00; x07; x02];
                        [x00; x00; x00]; [x08; x09]] EndRaises))
     = end_control EndRaises.
Proof.
  apply (sent_objects_are_decoded
           (@Ok bytes) (@Ok bytes) (fun _ => Ok tt) [[x07]; [x08; x09]]
           [x01; x00; x00; x00; x07; x02; x00; x00; x00; x08; x09]).
  - repeat (apply Forall_cons;
            [eexists; split; [reflexivity|];
             split; [unfold len; simpl; lia | split; reflexivity] |]).
    apply Forall_nil.
  - reflexivity.
  - reflexivity.
  - simpl. lia.
Defined.

(** ** A stream cut in the middle of a frame *)

(** While bytes of the frame are still to come, the inner loop condition
    holds. *)
Lemma frame_unfinished {Conn} (s : run_state Conn) (msg t : bytes) :
  1 <= len msg ->
  reading msg (data s) (number_of_bytes s) ->
  consumed_so_far (data s) (number_of_bytes s) ++ t = encoded msg ->
  t <> [] ->
  must_receive s = true
  /\ (number_of_bytes s =? 0) && (4 <=? len (data s)) = false.
Proof.
  intros Hmsg Inv Eq Ht. split.
  - destruct (must_receive s) eqn:M; [reflexivity|exfalso].
    rewrite <- (app_nil_r (encoded msg)) in Eq.
    destruct (frame_complete s msg t [] Hmsg Inv Eq M) as (_ & E & L).
    apply (f_equal len) in E. rewrite !len_app in E.
    change (len []) with 0 in E.
    pose proof (len_nonneg t).
    assert (len t = 0) by lia.
    destruct t; [congruence | unfold len in *; cbn [length] in *; lia].
  - destruct Inv as [[-> L] | E].
    + cbn [Z.eqb andb]. now apply Z.leb_gt.
    + rewrite E. destruct (Z.eqb_spec (len msg) 0); [lia | reflexivity].
Qed.

Lemma receive_truncated (e : ending) (msg t' : bytes) (del : list bytes)
      (k : nat) :
  1 <= len msg < 2 ^ 32 ->
  t' <> [] ->
  forall (cs : list bytes) (fuel : nat) (d : bytes) (n : Z),
    reading msg d n ->
    consumed_so_far d n ++ concat cs ++ t' = encoded msg ->
    (length cs < fuel)%nat ->
    exists s',
      receive script_recv fuel (mk_run_state (mk_script cs e) d n del k)
      = (end_control e, s')
      /\ delivered s' = del.
Proof.
  intros Hmsg Ht cs.
  induction cs as [|c cs IH]; intros fuel d n Inv Eq Hfuel.
  - cbn [concat app] in Eq.
    destruct (frame_unfinished (mk_run_state (mk_script [] e) d n del k)
                               msg t' ltac:(lia) Inv Eq Ht) as [M P].
    destruct e.
    + destruct fuel as [|fuel]; [cbn in Hfuel; lia|].
      rewrite receive_unfold, M. eexists. split; reflexivity.
    + rewrite receive_stalled by assumption. eexists. split; reflexivity.
  - destruct (frame_unfinished
                (mk_run_state (mk_script (c :: cs) e) d n del k)
                msg (concat (c :: cs) ++ t') ltac:(lia) Inv Eq) as [M _].
    { destruct t'; [congruence|]. intros E. apply app_eq_nil in E.
      destruct E; discriminate. }
    destruct fuel as [|fuel]; [cbn in Hfuel; lia|].
    rewrite receive_unfold, M.
    unfold with_locals, with_connection, script_recv.
    cbn [connection pending at_end data number_of_bytes delivered closes].
    cbn [length] in Hfuel. cbn [concat] in Eq.
    rewrite <- app_assoc in Eq.
    destruct ((n =? 0) && (4 <=? len (d ++ c))) eqn:Parse.
    + apply andb_true_iff in Parse. destruct Parse as [Hn0 Hlen].
      apply Z.eqb_eq in Hn0. apply Z.leb_le in Hlen. subst n.
      rewrite consumed_so_far_0, app_assoc in Eq.
      destruct (read_number_of_bytes_encoded
                  (mk_run_state (mk_script cs e) (d ++ c) 0 del k)
                  msg (concat cs ++ t') []) as [R Hd]; cbn [data]; try lia.
      { now rewrite app_nil_r. }
      cbn [connection data delivered closes] in R, Hd. rewrite R.
      apply IH; [now right | | lia].
      rewrite consumed_so_far_pos by lia. now rewrite Hd.
    + apply IH; [| | lia].
      * destruct Inv as [[-> Hd] | ->]; [left | now right].
        split; [reflexivity|].
        cbn [andb Z.eqb] in Parse. now apply Z.leb_gt in Parse.
      * destruct Inv as [[-> Hd] | ->].
        -- rewrite consumed_so_far_0 in *. now rewrite <- app_assoc.
        -- rewrite consumed_so_far_pos in * by lia.
           now rewrite <- !app_assoc in *.
Qed.

Lemma loop_truncated (h : bytes -> result unit) (e : ending)
      (msg t t' : bytes) :
  1 <= len msg < 2 ^ 32 ->
  t ++ t' = encoded msg ->
  t' <> [] ->
  forall (msgs : list bytes) (fuel : nat) (cs : list bytes) (d : bytes)
         (del : list bytes) (k : nat),
    Forall (fun m => 1 <= len m < 2 ^ 32) msgs ->
    Forall (fun m => h m = Ok tt) msgs ->
    d ++ concat cs = wire msgs ++ t ->
    (length msgs + length cs + 1 < fuel)%nat ->
    exists s',
      loop script_recv h fuel (mk_run_state (mk_script cs e) d 0 del k)
      = (end_control e, s')
      /\ delivered s' = del ++ msgs.
Proof.
  intros Hmsg Ht Ht'.
  induction msgs as [|m msgs IH]; intros fuel cs d del k Hlen Hh Eq Hfuel;
    (destruct fuel as [|fuel]; [lia|]).
  - cbn [wire map concat app] in Eq. cbn [length] in Hfuel.
    rewrite loop_unfold. cbn [number_of_bytes data Z.eqb andb].
    assert (Whole : d ++ concat cs ++ t' = encoded msg)
      by now rewrite app_assoc, Eq.
    assert (Top : exists d1 n1,
               (if 4 <=? len d
                then read_number_of_bytes
                       (mk_run_state (mk_script cs e) d 0 del k)
                else Ok (mk_run_state (mk_script cs e) d 0 del k))
               = Ok (mk_run_state (mk_script cs e) d1 n1 del k)
               /\ reading msg d1 n1
               /\ consumed_so_far d1 n1 = d).
    { destruct (Z.leb_spec 4 (len d)) as [L|L].
      - destruct (read_number_of_bytes_encoded
                    (mk_run_state (mk_script cs e) d 0 del k)
                    msg (concat cs ++ t') []) as [R Hd]; cbn [data]; try lia.
        { now rewrite app_nil_r. }
        cbn [connection data delivered closes] in R, Hd.
        exists (slice_from 4 d), (len msg). split; [exact R|].
        split; [now right|]. now rewrite consumed_so_far_pos by lia.
      - exists d, 0. split; [reflexivity|]. split; [now left | reflexivity]. }
    destruct Top as (d1 & n1 & -> & Inv & Hd1).
    destruct (receive_truncated e msg t' del k Hmsg Ht' cs fuel d1 n1 Inv)
      as (s' & R & D); [now rewrite Hd1 | lia |].
    rewrite R. exists s'. rewrite app_nil_r.
    split; [now destruct e | exact D].
  - inversion Hlen as [|? ? Hm Hlen']; subst.
    inversion Hh as [|? ? Hhm Hh']; subst.
    cbn [length] in Hfuel.
    unfold wire in Eq. cbn [map concat] in Eq. rewrite <- app_assoc in Eq.
    destruct (loop_frame h e m (wire msgs ++ t) del k cs fuel d Hm Eq)
      as (cs' & d' & Eq' & Lcs & Step); [lia|].
    rewrite Step, Hhm.
    destruct (IH fuel cs' d' (del ++ [m]) k) as (s' & L & D); auto; [lia|].
    exists s'. split; [exact L|]. now rewrite D, <- app_assoc.
Qed.

(** X13. A message is delivered whole or not at all: when the stream stops
    in the middle of a frame - inside its prefix or inside its message - the
    frames before it reach the handler and the unfinished one never does,
    however the bytes were cut into chunks. *)
Theorem run_never_delivers_truncated
        (h : bytes -> result unit) (e : ending)
        (msgs : list bytes) (w : bytes) (msg t t' : bytes)
        (chunks : list bytes) (fuel : nat) :
  Forall (fun m => 1 <= len m) msgs ->
  Forall (fun m => h m = Ok tt) msgs ->
  frames msgs = Ok w ->
  1 <= len msg ->
  frame msg = Ok (t ++ t') ->
  t' <> [] ->
  concat chunks = w ++ t ->
  (length msgs + length chunks + 1 < fuel)%nat ->
  delivered (snd (run_script h fuel (mk_script chunks e))) = msgs
  /\ fst (run_script h fuel (mk_script chunks e)) = end_control e.
Proof.
  intros Hpos Hh Hw Hm Hf Ht' Hc Hfuel.
  apply frames_inv in Hw. destruct Hw as [Hmax ->].
  apply frame_inv in Hf. destruct Hf as [Hmmax Hf].
  assert (R : forall m, 1 <= len m -> len m < 2 ^ 31 - 1 ->
                        1 <= len m < 2 ^ 32).
  { intros m A B. change (2 ^ 31 - 1) with 2147483647 in B.
    change (2 ^ 32) with 4294967296. lia. }
  destruct (loop_truncated h e msg t t' (R _ Hm Hmmax) Hf Ht'
                           msgs fuel chunks [] [] 0%nat)
    as (s' & L & D); auto.
  - rewrite Forall_forall in *. intros m Hin. apply R; auto.
  - rewrite run_script_eq. unfold initial. rewrite L.
    destruct e; cbn [end_control fst snd]; unfold finally_close;
      cbn [delivered script_close]; now split.
Qed.

Lemma run_never_delivers_truncated_witness :
  delivered (snd (run_script accept_all 6
                    (mk_script [[x01; x00; x00]; [x00; x07; x02; x00];
                                [x00; x00; x08]] EndRaises)))
  = [[x07]]
  /\ fst (run_script accept_all 6
            (mk_script [[x01; x00; x00]; [x00; x07; x02; x00];
                        [x00; x00; x08]] EndRaises))
     = end_control EndRaises.
Proof.
  apply (run_never_delivers_truncated
           accept_all EndRaises [[x07]] [x01; x00; x00; x00; x07]
           [x08; x09] [x02; x00; x00; x00; x08] [x09]).
  - repeat (apply Forall_cons; [unfold len; simpl; lia|]). apply Forall_nil.
  - repeat (apply Forall_cons; [reflexivity|]). apply Forall_nil.
  - reflexivity.
  - unfold len. simpl. lia.
  - reflexivity.
  - discriminate.
  - reflexivity.
  - simpl. lia.
Defined.

(** ** A handler that raises *)

Lemma loop_until_raise (h : bytes -> result unit) (e : ending)
      (bad : bytes) (post : list bytes) (x : exn) :
  1 <= len bad < 2 ^ 32 ->
  h bad = Raise x ->
  forall (pre : list bytes) (fuel : nat) (cs : list bytes) (d : bytes)
         (del : list bytes) (k : nat),
    Forall (fun m => 1 <= len m < 2 ^ 32) pre ->
    Forall (fun m => h m = Ok tt) pre ->
    d ++ concat cs = wire (pre ++ bad :: post) ->
    (length pre + length cs + 1 < fuel)%nat ->
    exists s',
      loop script_recv h fuel (mk_run_state (mk_script cs e) d 0 del k)
      = (Raising x, s')
      /\ delivered s' = del ++ pre ++ [bad]
      /\ closes s' = k.
Proof.
  intros Hbad Hx.
  induction pre as [|m pre IH]; intros fuel cs d del k Hlen Hh Eq Hfuel;
    (destruct fuel as [|fuel]; [lia|]); cbn [length] in Hfuel;
    unfold wire in Eq; cbn [app map concat] in Eq.
  - destruct (loop_frame h e bad (wire post) del k cs fuel d Hbad Eq)
      as (cs' & d' & Eq' & Lcs & Step); [lia|].
    rewrite Step, Hx. eexists. split; [reflexivity|]. now split.
  - inversion Hlen as [|? ? Hm Hlen']; subst.
    inversion Hh as [|? ? Hhm Hh']; subst.
    destruct (loop_frame h e m (wire (pre ++ bad :: post)) del k cs fuel d
                         Hm Eq)
      as (cs' & d' & Eq' & Lcs & Step); [lia|].
    rewrite Step, Hhm.
    destruct (IH fuel cs' d' (del ++ [m]) k) as (s' & L & D & C); auto; [lia|].
    exists s'. split; [exact L|]. split; [|exact C].
    now rewrite D, <- app_assoc.
Qed.

(** X14. The first exception of the handler ends the connection: the
    messages before the one it raised on were handled, that one was
    delivered, no later message is, the exception leaves [run] and the
    socket has been closed once. *)
Theorem run_stops_at_handler_exception
        (h : bytes -> result unit) (e : ending)
        (pre : list bytes) (bad : bytes) (post : list bytes) (x : exn)
        (w : bytes) (chunks : list bytes) (fuel : nat) :
  Forall (fun m => 1 <= len m) (pre ++ bad :: post) ->
  Forall (fun m => h m = Ok tt) pre ->
  h bad = Raise x ->
  frames (pre ++ bad :: post) = Ok w ->
  concat chunks = w ->
  (length pre + length chunks + 1 < fuel)%nat ->
  delivered (snd (run_script h fuel (mk_script chunks e))) = pre ++ [bad]
  /\ fst (run_script h fuel (mk_script chunks e)) = Raising x
  /\ closes (snd (run_script h fuel (mk_script chunks e))) = 1%nat.
Proof.
  intros Hpos Hh Hx Hw Hc Hfuel.
  apply frames_inv in Hw. destruct Hw as [Hmax ->].
  assert (R : Forall (fun m => 1 <= len m < 2 ^ 32) (pre ++ bad :: post)).
  { rewrite Forall_forall in *. intros m Hin.
    specialize (Hpos m Hin). specialize (Hmax m Hin).
    change (2 ^ 31 - 1) with 2147483647 in Hmax.
    change (2 ^ 32) with 4294967296. lia. }
  apply Forall_app in R. destruct R as [Rpre Rbad].
  inversion Rbad as [|? ? Hbad _]; subst.
  destruct (loop_until_raise h e bad post x Hbad Hx pre fuel chunks [] [] 0%nat)
    as (s' & L & D & C); auto.
  rewrite run_script_eq. unfold initial. rewrite L.
  unfold finally_close. cbn [fst snd delivered closes script_close].
  rewrite D, C. now repeat split.
Qed.

Lemma run_stops_at_handler_exception_witness :
  delivered (snd (run_script
                    (fun m => match m with
                              | [x08; x09] => Raise OtherError
                              | _ => Ok tt
                              end) 5
                    (mk_script [[x01; x00; x00; x00; x07; x02; x00];
                                [x00; x00; x08; x09; x01; x00; x00; x00; x0a]]
                               EndRaises)))
  = [[x07]] ++ [[x08; x09]]
  /\ fst (run_script
            (fun m => match m with
                      | [x08; x09] => Raise OtherError
                      | _ => Ok tt
                      end) 5
            (mk_script [[x01; x00; x00; x00; x07; x02; x00];
                        [x00; x00; x08; x09; x01; x00; x00; x00; x0a]]
                       EndRaises))
     = Raising OtherError
  /\ closes (snd (run_script
                    (fun m => match m with
                              | [x08; x09] => Raise OtherError
                              | _ => Ok tt
                              end) 5
                    (mk_script [[x01; x00; x00; x00; x07; x02; x00];
                                [x00; x00; x08; x09; x01; x00; x00; x00; x0a]]
                               EndRaises)))
     = 1%nat.
Proof.
  apply (run_stops_at_handler_exception
           (fun m => match m with
                     | [x08; x09] => Raise OtherError
                     | _ => Ok tt
                     end)
           EndRaises [[x07]] [x08; x09] [[x0a]] OtherError
           [x01; x00; x00; x00; x07; x02; x00; x00; x00; x08; x09;
            x01; x00; x00; x00; x0a]).
  - repeat (apply Forall_cons; [unfold len; simpl; lia|]). apply Forall_nil.
  - repeat (apply Forall_cons; [reflexivity|]). apply Forall_nil.
  - reflexivity.
  - reflexivity.
  - reflexivity.
  - simpl. lia.
Defined.

(** ** A return of [select] after a shutdown *)

(** X15. If another thread has run [shutdown()] by the time [select]
    returns or raises, the accept loop accepts nothing more: the connection
    [select] may have reported and those behind it get no handler, the
    listening socket has been closed by that [shutdown()], and the loop
    ends - by [break], or with the exception of [select] if it raised.
    Nothing is said of a [select] that does not return after the
    shutdown. *)
Theorem select_return_after_shutdown_stops_accepting {Connection Handler : Type}
        (connection_handler_class : Connection -> result Handler)
        (start : Handler -> result unit)
        (sock_close : listener -> result unit)
        (b : option bool) (sock : listener)
        (sel : result bool) (acc : result Connection)
        (rounds : list (round Connection)) (w : list (effect Connection)) :
  serve_loop connection_handler_class start sock_close
             (mk_round true sel acc :: rounds) (running b sock) w
  = (match sel with
     | Ok _ => LoopDone
     | Raise x => LoopRaising x
     end,
     mk_Server b true AttrNone,
     w ++ CloseListener sock
          :: match sock_close sock with
             | Ok _ => []
             | Raise _ => [PrintTraceback]
             end).
Proof.
  unfold running. cbn [serve_loop _shutdown_event read_sock _sock].
  cbn [interrupted selected accepted]. unfold shutdown.
  cbn [getattr_sock _sock _block _shutdown_event].
  destruct (sock_close sock), sel; reflexivity.
Qed.

(** X16. [get_port] is of no use after a blocking [serve_forever]: when
    that call has returned, the socket is closed and [_sock] is [None], so
    [get_port] raises at its first look. *)
Theorem get_port_after_blocking_serve_forever {Connection Handler : Type}
        (connection_handler_class : Connection -> result Handler)
        (start : Handler -> result unit)
        (sock_close : listener -> result unit)
        (bound : result listener) (rounds : list (round Connection))
        (self : Server) (w : list (effect Connection))
        (clock : nat -> Z) (fuel : nat) :
  _block self = None ->
  outcome (serve_forever connection_handler_class start sock_close
                         true bound rounds self w) = LoopDone ->
  get_port (fun _ => server (serve_forever connection_handler_class start
                                           sock_close true bound rounds self w))
           clock fuel
  = Some (Raise AttributeError).
Proof.
  intros Hb. unfold serve_forever. rewrite Hb.
  destruct bound as [sock|x]; [|discriminate].
  pose proof (_serve_forever_ends
                connection_handler_class start sock_close sock rounds self w)
    as H.
  destruct (_serve_forever connection_handler_class start sock_close
                           (Ok sock) rounds self w) as [[[|x|] s1] w1];
    cbn [outcome server]; try discriminate.
  destruct H as [-> _]. intros _.
  unfold get_port, wait_for_condition.
  destruct fuel; reflexivity.
Qed.

Lemma get_port_after_blocking_serve_forever_witness :
  get_port (fun _ => server (serve_forever
                               (fun c : nat => Ok c) (fun _ => Ok tt)
                               (fun _ => Ok tt) true (Ok (mk_listener 8080))
                               [mk_round true (Ok false) (Ok 1%nat)]
                               new_Server []))
           (fun k => Z.of_nat k) 0
  = Some (Raise AttributeError).
Proof.
  apply (get_port_after_blocking_serve_forever
           (fun c : nat => Ok c) (fun _ => Ok tt) (fun _ => Ok tt)
           (Ok (mk_listener 8080)) [mk_round true (Ok false) (Ok 1%nat)]
           new_Server [] (fun k => Z.of_nat k) 0);
    reflexivity.
Defined.

(** ** Closing the socket *)

Lemma read_number_of_bytes_connection {Conn} (s s' : run_state Conn) :
  read_number_of_bytes s = Ok s' ->
  connection s' = connection s /\ closes s' = closes s.
Proof.
  unfold read_number_of_bytes.
  destruct (struct_unpack_I (slice_to 4 (data s))); cbn [bind]; [|discriminate].
  destruct (0 <=? a); intros E; inversion E. now split.
Qed.

Section NeverRaisingTransport.

Context {Conn : Type}.
Variable recv : Conn -> Z -> result bytes * Conn.
Variable h : bytes -> result unit.

(** States of the transport in which [recv] returns, and goes on
    returning. *)
Variable quiet : Conn -> Prop.
Hypothesis recv_quiet :
  forall c, quiet c ->
            exists rec c', recv c BUFFER_SIZE = (Ok rec, c') /\ quiet c'.

(** On such a transport the inner loop never takes the [return] of
    line 281. *)
Lemma receive_never_returns (fuel : nat) :
  forall s : run_state Conn,
    quiet (connection s) ->
    fst (receive recv fuel s) <> Return
    /\ quiet (connection (snd (receive recv fuel s))).
Proof.
  induction fuel as [|fuel IH]; intros s Q; rewrite receive_unfold;
    destruct (must_receive s); cbn [fst snd];
    try (split; [discriminate | assumption]).
  destruct (recv_quiet _ Q) as (rec & c' & -> & Q').
  cbn zeta. unfold with_connection, with_locals.
  cbn [connection data number_of_bytes delivered closes].
  match goal with
  | |- context [if ?c then _ else _] => destruct c
  end.
  - destruct (read_number_of_bytes _) as [s1|x] eqn:R.
    + apply IH. apply read_number_of_bytes_connection in R.
      destruct R as [-> _]. exact Q'.
    + cbn [fst snd connection]. split; [discriminate | assumption].
  - apply IH. exact Q'.
Qed.

Lemma loop_never_returns (fuel : nat) :
  forall s : run_state Conn,
    quiet (connection s) ->
    fst (loop recv h fuel s) <> Return.
Proof.
  induction fuel as [|fuel IH]; intros s Q; [discriminate|].
  rewrite loop_unfold.
  destruct (if (number_of_bytes s =? 0) && (4 <=? len (data s))
            then read_number_of_bytes s else Ok s) as [s1|x] eqn:Top;
    [|discriminate].
  assert (Q1 : quiet (connection s1)).
  { destruct ((number_of_bytes s =? 0) && (4 <=? len (data s))).
    - apply read_number_of_bytes_connection in Top. destruct Top as [-> _].
      exact Q.
    - inversion Top; subst. exact Q. }
  destruct (receive_never_returns fuel s1 Q1) as [NR Q2].
  destruct (receive recv fuel s1) as [[| |x|] s2]; cbn [fst snd] in *;
    try discriminate; try congruence.
  cbn zeta. destruct (h _); [|discriminate].
  apply IH. exact Q2.
Qed.

End NeverRaisingTransport.

Lemma script_recv_end_of_stream (c : script) :
  at_end c = EndOfStream ->
  exists rec c',
    script_recv c BUFFER_SIZE = (Ok rec, c') /\ at_end c' = EndOfStream.
Proof.
  intros A. unfold script_recv. destruct (pending c) as [|rec rest].
  - rewrite A. now exists [], c.
  - now exists rec, (mk_script rest (at_end c)).
Qed.

(** On a transport whose [recv] raises once its chunks are read, the inner
    loop stops within one call of [recv] per chunk and one more; it leaves
    no more chunks and bytes to deal with than it found. *)
Lemma receive_until_recv_raises (del : list bytes) (k : nat) :
  forall (cs : list bytes) (fuel : nat) (d : bytes) (n : Z),
    (length cs < fuel)%nat ->
    exists ctl cs' d' n',
      receive script_recv fuel (mk_run_state (mk_script cs EndRaises) d n del k)
      = (ctl, mk_run_state (mk_script cs' EndRaises) d' n' del k)
      /\ (ctl = Return \/ ctl = Exit)
      /\ (length cs' + length d' + length (concat cs')
          <= length cs + length d + length (concat cs))%nat.
Proof.
  induction cs as [|c cs IH]; intros fuel d n Hfuel;
    (destruct fuel as [|fuel]; [lia|]); rewrite receive_unfold;
    match goal with
    | |- context [must_receive ?s] => destruct (must_receive s)
    end;
    try (exists Exit; eexists _, _, _; split; [reflexivity|];
         split; [now right | cbn; lia]).
  - exists Return. exists [], d, n. split; [reflexivity|].
    split; [now left | cbn; lia].
  - unfold with_locals, with_connection, script_recv.
    cbn [connection pending at_end data number_of_bytes delivered closes].
    cbn [length] in Hfuel.
    assert (W : forall (d1 : bytes) (n1 : Z),
               (length d1 <= length (d ++ c))%nat ->
               exists ctl cs' d' n',
                 receive script_recv fuel
                         (mk_run_state (mk_script cs EndRaises) d1 n1 del k)
                 = (ctl, mk_run_state (mk_script cs' EndRaises) d' n' del k)
                 /\ (ctl = Return \/ ctl = Exit)
                 /\ (length cs' + length d' + length (concat cs')
                     <= length (c :: cs) + length d
                        + length (concat (c :: cs)))%nat).
    { intros d1 n1 L.
      destruct (IH fuel d1 n1 ltac:(lia)) as (ctl & cs' & d' & n' & R & C & M).
      exists ctl, cs', d', n'. split; [exact R|]. split; [exact C|].
      cbn [length concat]. rewrite !length_app in *. lia. }
    destruct ((n =? 0) && (4 <=? len (d ++ c))) eqn:Parse.
    + apply andb_true_iff in Parse. destruct Parse as [_ L].
      apply Z.leb_le in L.
      destruct (read_number_of_bytes_ok
                  (mk_run_state (mk_script cs EndRaises) (d ++ c) n del k) L)
        as (n1 & R & _).
      cbn [connection data delivered closes] in R. rewrite R.
      apply W. unfold slice_from. rewrite length_skipn. lia.
    + apply W. lia.
Qed.

(** The outer loop on such a transport ends, whatever bytes it is given: by
    the [return] of line 281 or by an exception of the handler. *)
Lemma loop_ends_when_recv_raises (h : bytes -> result unit) :
  forall (m fuel : nat) (cs : list bytes) (d : bytes)
         (del : list bytes) (k : nat),
    (length cs + length d + length (concat cs) <= m)%nat ->
    (m + 1 < fuel)%nat ->
    exists ctl s',
      loop script_recv h fuel (mk_run_state (mk_script cs EndRaises) d 0 del k)
      = (ctl, s')
      /\ (ctl = Return \/ exists x, ctl = Raising x).
Proof.
  induction m as [|m IH]; intros fuel cs d del k Hm Hfuel;
    (destruct fuel as [|fuel]; [lia|]); rewrite loop_unfold;
    cbn [number_of_bytes data Z.eqb andb].
  - (* nothing buffered and no chunk left *)
    assert (cs = []) by (destruct cs; [reflexivity | cbn [length] in Hm; lia]).
    assert (d = []) by (destruct d; [reflexivity | cbn [length] in Hm; lia]).
    subst. destruct fuel as [|fuel]; [lia|].
    eexists _, _. split; [reflexivity | now left].
  - assert (Top : exists d1 n1,
               (if 4 <=? len d
                then read_number_of_bytes
                       (mk_run_state (mk_script cs EndRaises) d 0 del k)
                else Ok (mk_run_state (mk_script cs EndRaises) d 0 del k))
               = Ok (mk_run_state (mk_script cs EndRaises) d1 n1 del k)
               /\ 0 <= n1 < 2 ^ 32
               /\ (length d1 <= length d)%nat).
    { destruct (Z.leb_spec 4 (len d)) as [L|L].
      - destruct (read_number_of_bytes_ok
                    (mk_run_state (mk_script cs EndRaises) d 0 del k) L)
          as (n1 & R & _ & Rg).
        cbn [connection data delivered closes] in R.
        exists (slice_from 4 d), n1. split; [exact R|]. split; [exact Rg|].
        unfold slice_from. rewrite length_skipn. lia.
      - exists d, 0. split; [reflexivity|].
        split; [change (2 ^ 32) with 4294967296; lia | lia]. }
    destruct Top as (d1 & n1 & -> & Rg & Ld1).
    destruct (receive_until_recv_raises del k cs fuel d1 n1 ltac:(lia))
      as (ctl & cs' & d' & n' & R & C & M).
    pose proof (receive_exit script_recv fuel
                  (mk_run_state (mk_script cs EndRaises) d1 n1 del k) Rg)
      as [Rg' Ex].
    rewrite R in Rg', Ex. cbn [fst snd number_of_bytes] in Rg', Ex.
    rewrite R. destruct C as [-> | ->].
    + eexists _, _. split; [reflexivity | now left].
    + specialize (Ex eq_refl). apply must_receive_false in Ex.
      cbn [number_of_bytes data] in Ex. destruct Ex as [N0 Le].
      cbn zeta. cbn [number_of_bytes data connection delivered closes].
      destruct (h (slice_to n' d')) as [u|x].
      * apply IH; [|lia].
        unfold slice_from, len in *. rewrite length_skipn. lia.
      * eexists _, _. split; [reflexivity | right; now exists x].
Qed.

(** C5, where the code departs from it. When [recv] raises, whatever bytes
    came before, [run] ends - by the [return] of line 281 or by an exception
    of the handler - and [self.connection.close()] has been called exactly
    once.  When the peer closes the stream in order, [recv] returns the
    empty string, [run] never takes that [return], and unless the handler
    raises the worker never ends and never closes its socket. *)
Theorem run_closes_only_when_it_ends
        (h : bytes -> result unit) (chunks : list bytes) (fuel : nat) :
  (length chunks + length (concat chunks) + 1 < fuel)%nat ->
  match run_script h fuel (mk_script chunks EndRaises) with
  | (Return, s) => closes s = 1%nat
  | (Raising x, s) => closes s = 1%nat /\ h (last (delivered s) []) = Raise x
  | _ => False
  end
  /\ (forall fuel',
         match run_script h fuel' (mk_script chunks EndOfStream) with
         | (NoFuel, s) => closes s = 0%nat
         | (Raising x, s) =>
             closes s = 1%nat /\ h (last (delivered s) []) = Raise x
         | _ => False
         end).
Proof.
  intros Hfuel. split.
  - rewrite run_script_eq.
    destruct (loop_ends_when_recv_raises
                h (length chunks + length (@nil byte) + length (concat chunks))
                fuel chunks [] [] 0%nat) as (ctl & s' & L & C);
      [lia | cbn [length]; lia |].
    pose proof (loop_ends script_recv h fuel (initial (mk_script chunks EndRaises)))
      as E.
    unfold initial in *. rewrite L in *.
    destruct C as [-> | [x ->]]; unfold finally_close;
      cbn [closes delivered script_close] in *.
    + now rewrite E.
    + destruct E as [E1 E2]. now rewrite E2.
  - intros fuel'. rewrite run_script_eq.
    pose proof (loop_ends script_recv h fuel'
                          (initial (mk_script chunks EndOfStream))) as E.
    pose proof (loop_never_returns
                  script_recv h (fun c => at_end c = EndOfStream)
                  script_recv_end_of_stream fuel'
                  (initial (mk_script chunks EndOfStream)) eq_refl) as NR.
    destruct (loop script_recv h fuel' (initial (mk_script chunks EndOfStream)))
      as [[| |x|] s]; cbn [fst] in NR; try contradiction;
      unfold finally_close; cbn [closes delivered script_close initial] in *.
    + destruct E as [E1 E2]. now rewrite E2.
    + exact E.
Qed.

Lemma run_closes_only_when_it_ends_witness :
  match run_script accept_all 14
                   (mk_script [[x01; x00]; [x00; x00; x07; x02];
                               [x00; x00]] EndRaises) with
  | (Return, s) => closes s = 1%nat
  | (Raising x, s) =>
      closes s = 1%nat /\ accept_all (last (delivered s) []) = Raise x
  | _ => False
  end
  /\ (forall fuel',
         match run_script accept_all fuel'
                          (mk_script [[x01; x00]; [x00; x00; x07; x02];
                                      [x00; x00]] EndOfStream) with
         | (NoFuel, s) => closes s = 0%nat
         | (Raising x, s) =>
             closes s = 1%nat /\ accept_all (last (delivered s) []) = Raise x
         | _ => False
         end).
Proof.
  apply (run_closes_only_when_it_ends
           accept_all [[x01; x00]; [x00; x00; x07; x02]; [x00; x00]] 14).
  simpl. lia.
Defined.
